(** * WhatsApp agent: job lifecycle and webhook pipeline

    A shallow embedding of [main.py] and of the part of [waha_client.py]
    that [main.py] calls, followed by the properties of the
    specification stated and settled over it.

    Python values are modelled as follows.
    - A [str] is the list of its Unicode code points ([list N]).
    - The module-level dictionaries [jobs] and [payment_instances] are
      finite maps keyed by the job identifier, the module-level set
      [processed_message_ids] is a finite set.
    - A coroutine is a computation in a state, trace and exception monad:
      it threads the module-level state, appends the calls it makes to
      collaborators (task executor, payment service, transport gateway,
      logger) to a trace, and either returns or raises.
    - The collaborators themselves are not part of the repository; what
      they answer is an input of the model (an environment record). *)

From Stdlib Require Import NArith String Ascii List Lia.
From stdpp Require Import base gmap sets list strings.

Open Scope N_scope.

(* ===================================================================== *)
(** ** Python strings                                                    *)
(* ===================================================================== *)

Abbreviation pystr := (list N).

Module PyStr.

(** Code points of an ASCII literal. *)
Definition py (s : string) : pystr :=
  map N_of_ascii (list_ascii_of_string s).

(** [s.startswith(p)] *)
Fixpoint startswith (s p : pystr) {struct p} : bool :=
  match p, s with
  | [], _ => true
  | _ :: _, [] => false
  | c :: p', d :: s' => (c =? d) && startswith s' p'
  end.

(** [s.endswith(p)] *)
Definition endswith (s p : pystr) : bool :=
  startswith (rev s) (rev p).

(** [s.endswith((p1, p2, ...))]: a tuple of suffixes. *)
Definition endswith_any (s : pystr) (ps : list pystr) : bool :=
  existsb (endswith s) ps.

(** [sub in s] *)
Fixpoint contains (s sub : pystr) : bool :=
  startswith s sub ||
  match s with
  | [] => false
  | _ :: s' => contains s' sub
  end.

(** [c.isspace()], which is also the class [\s] of [re] on [str]
    patterns: the code points Python treats as white space. *)
Definition isspace (c : N) : bool :=
  ((9 <=? c) && (c <=? 13)) || ((28 <=? c) && (c <=? 32))
  || (c =? 133) || (c =? 160) || (c =? 5760)
  || ((8192 <=? c) && (c <=? 8202))
  || (c =? 8232) || (c =? 8233) || (c =? 8239) || (c =? 8287)
  || (c =? 12288).

Fixpoint dropwhile (p : N -> bool) (s : pystr) : pystr :=
  match s with
  | [] => []
  | c :: s' => if p c then dropwhile p s' else s
  end.

Definition lstrip (s : pystr) : pystr := dropwhile isspace s.
Definition rstrip (s : pystr) : pystr := rev (dropwhile isspace (rev s)).

(** [s.strip()] *)
Definition strip (s : pystr) : pystr := lstrip (rstrip s).

(** [s.lower()], on the ASCII letters.  The case mappings of the other
    code points are not modelled: they are left as they are.  Of these
    only U+0130 (to i and a combining dot) and U+212A (to k) have an
    ASCII letter in their lowercase. *)
Definition lower_cp (c : N) : N :=
  if (65 <=? c) && (c <=? 90) then c + 32 else c.

Definition lower (s : pystr) : pystr := map lower_cp s.

(** The text after the first occurrence of [c], if there is one. *)
Fixpoint after_first (c : N) (s : pystr) : option pystr :=
  match s with
  | [] => None
  | d :: s' => if d =? c then Some s' else after_first c s'
  end.

(** [s.rsplit(sep, 1)[0]] for a separator of one character: the text
    before the last separator, the whole text when there is none. *)
Definition rsplit1_head (sep : N) (s : pystr) : pystr :=
  match after_first sep (rev s) with
  | Some r => rev r
  | None => s
  end.

(** Python truthiness of an optional string: [None] and [''] are false. *)
Definition truthy (o : option pystr) : bool :=
  match o with
  | Some (_ :: _) => true
  | _ => false
  end.

(** The decimal digits of Unicode (general category Nd).  The digits of
    a script are ten consecutive code points, zero to nine; the table
    lists the zero of each script in the database of Unicode 15.0, that
    of CPython 3.12 (3.13 has the same digits).  main.py needs 3.12 at
    least: its line 195 nests the quote of an f-string.  The database of
    Unicode 14.0, of CPython 3.11, has all the rows but U+11F50 (Kawi)
    and U+1E4F0 (Nag Mundari). *)
Definition decimal_zeros : list N :=
  [ 48; 1632; 1776; 1984; 2406; 2534; 2662; 2790; 2918; 3046; 3174; 3302;
    3430; 3558; 3664; 3792; 3872; 4160; 4240; 6112; 6160; 6470; 6608; 6784;
    6800; 6992; 7088; 7232; 7248; 42528; 43216; 43264; 43472; 43504; 43600;
    44016; 65296; 66720; 68912; 69734; 69872; 69942; 70096; 70384; 70736;
    70864; 71248; 71360; 71472; 71904; 72016; 72784; 73040; 73120; 73552;
    92768; 92864; 93008; 120782; 120792; 120802; 120812; 120822; 123200;
    123632; 124144; 125264; 130032 ].

(** The class [\d] of [re] on a [str] pattern: any decimal digit, not
    the ASCII digits only. *)
Definition isdigit (c : N) : bool :=
  existsb (λ zero, (zero <=? c) && (c <? zero + 10)) decimal_zeros.

Fixpoint takewhile (p : N -> bool) (s : pystr) : pystr :=
  match s with
  | [] => []
  | c :: s' => if p c then c :: takewhile p s' else []
  end.

End PyStr.

(* ===================================================================== *)
(** ** Exceptions and coroutines                                         *)
(* ===================================================================== *)

Module Effects.

(** The exceptions the modelled code can meet. *)
Inductive exn :=
| KeyError (key : pystr)
| TypeError (msg : pystr)
| ValueError (msg : pystr)
| HTTPException (status_code : N)
| Failure (msg : pystr).          (* raised by a collaborator *)

(** [str(e)] *)
Definition str_exn (e : exn) : pystr :=
  match e with
  | KeyError k => PyStr.py "'" ++ k ++ PyStr.py "'"
  | TypeError m => m
  | ValueError m => m
  | HTTPException _ => []
  | Failure m => m
  end.

Inductive outcome (A : Type) :=
| Returns (a : A)
| Raises (e : exn).
Arguments Returns {A} a.
Arguments Raises {A} e.

Section Monad.
Context {S E : Type}.

(** A computation over the module state [S] that appends events [E]
    to the trace. *)
Definition M (A : Type) : Type := S -> outcome A * S * list E.

Definition ret {A} (a : A) : M A := fun s => (Returns a, s, []).

Definition bind {A B} (m : M A) (k : A -> M B) : M B :=
  fun s =>
    match m s with
    | (Returns a, s1, t1) =>
        match k a s1 with
        | (r, s2, t2) => (r, s2, t1 ++ t2)
        end
    | (Raises e, s1, t1) => (Raises e, s1, t1)
    end.

Definition raise {A} (e : exn) : M A := fun s => (Raises e, s, []).

(** [try: m  except Exception as e: h e] *)
Definition try_except {A} (m : M A) (h : exn -> M A) : M A :=
  fun s =>
    match m s with
    | (Returns a, s1, t1) => (Returns a, s1, t1)
    | (Raises e, s1, t1) =>
        match h e s1 with
        | (r, s2, t2) => (r, s2, t1 ++ t2)
        end
    end.

Definition emit (ev : E) : M unit := fun s => (Returns tt, s, [ev]).
Definition get : M S := fun s => (Returns s, s, []).
Definition put (s' : S) : M unit := fun _ => (Returns tt, s', []).

(** A call to a collaborator whose answer the environment gives. *)
Definition answer {A} (o : outcome A) : M A := fun s => (o, s, []).

End Monad.

Arguments M : clear implicits.

Definition result_of {S E A} (r : outcome A * S * list E) : outcome A := r.1.1.
Definition state_of {S E A} (r : outcome A * S * list E) : S := r.1.2.
Definition trace_of {S E A} (r : outcome A * S * list E) : list E := r.2.

End Effects.

Notation "'let!' x ':=' m 'in' k" :=
  (Effects.bind m (fun x => k))
  (at level 10, x name, m at level 100, k at level 200).

(* ===================================================================== *)
(** ** The paid job flow ([start_job], [handle_payment_status],
       [get_status])                                                     *)
(* ===================================================================== *)

Module Jobs.
Import PyStr Effects.

(** The four strings the code writes to a job's ["status"]. *)
Inductive job_status := awaiting_payment | running | completed | failed.

(** What the task executor returns ([CrewOutput]). *)
Record crew_output := {
  raw : option pystr;        (* [None]: the object has no attribute [raw] *)
  as_str : pystr;            (* [str(result)] *)
  json_dict : option pystr   (* [result.json_dict], opaque *)
}.

(** A value of the dictionary [jobs].  The key ["error"] is absent from
    the dictionary until the failure handler writes it: [error = None]
    stands for the absent key; [result = None] for Python's [None]. *)
Record job := {
  status : job_status;
  payment_status : option pystr;
  payment_id : pystr;
  input_data : gmap pystr pystr;
  result : option crew_output;
  identifier_from_purchaser : pystr;
  error : option pystr
}.

(** A [Payment] object of the payment library, as far as [main.py]
    touches its fields. *)
Record payment := {
  pay_identifier_from_purchaser : pystr;
  pay_input_data : gmap pystr pystr;
  payment_ids : gset pystr
}.

(** The module-level registries. *)
Record store := {
  jobs : gmap pystr job;
  payment_instances : gmap pystr payment
}.

Definition empty_store : store := {| jobs := ∅; payment_instances := ∅ |}.

Record StartJobRequest := {
  rq_identifier_from_purchaser : pystr;
  rq_input_data : gmap pystr pystr
}.

(** Calls to collaborators and log records, in the order they happen. *)
Inductive event :=
| CreatePaymentRequest
| StartStatusMonitoring (job_id : pystr)
| ExecuteCrewTask (input : gmap pystr pystr)
| CompletePayment (job_id payment_id : pystr) (result_dict : option pystr)
| StopStatusMonitoring (job_id : pystr)
| CheckPaymentStatus (job_id : pystr)
| LogError (text : pystr).

(** What the collaborators answer.  [stop_in_body] and [stop_in_handler]
    are the answers of [stop_status_monitoring] at its two call sites
    (lines 214 and 223). *)
Record environment := {
  create_payment_request : outcome pystr;   (* the blockchainIdentifier *)
  start_status_monitoring : outcome unit;
  execute_crew_task : gmap pystr pystr -> outcome crew_output;
  complete_payment : pystr -> option pystr -> outcome unit;
  stop_in_body : outcome unit;
  stop_in_handler : outcome unit;
  check_payment_status : outcome (option pystr)
}.

Abbreviation Job A := (M store event A).

Definition set_status (v : job_status) (j : job) : job :=
  {| status := v; payment_status := payment_status j;
     payment_id := payment_id j; input_data := input_data j;
     result := result j;
     identifier_from_purchaser := identifier_from_purchaser j;
     error := error j |}.

Definition set_payment_status (v : option pystr) (j : job) : job :=
  {| status := status j; payment_status := v;
     payment_id := payment_id j; input_data := input_data j;
     result := result j;
     identifier_from_purchaser := identifier_from_purchaser j;
     error := error j |}.

Definition set_result (v : option crew_output) (j : job) : job :=
  {| status := status j; payment_status := payment_status j;
     payment_id := payment_id j; input_data := input_data j;
     result := v;
     identifier_from_purchaser := identifier_from_purchaser j;
     error := error j |}.

Definition set_error (v : option pystr) (j : job) : job :=
  {| status := status j; payment_status := payment_status j;
     payment_id := payment_id j; input_data := input_data j;
     result := result j;
     identifier_from_purchaser := identifier_from_purchaser j;
     error := v |}.

(** [jobs[job_id]]: raises [KeyError] on an unknown job. *)
Definition get_job (job_id : pystr) : Job job :=
  let! st := get in
  match jobs st !! job_id with
  | Some j => ret j
  | None => raise (KeyError job_id)
  end.

(** [jobs[job_id][key] = v], written as an update [f] of the job. *)
Definition set_job_item (job_id : pystr) (f : job -> job) : Job unit :=
  let! st := get in
  match jobs st !! job_id with
  | Some j =>
      put {| jobs := <[job_id := f j]> (jobs st);
             payment_instances := payment_instances st |}
  | None => raise (KeyError job_id)
  end.

(** [jobs[job_id] = j] *)
Definition store_job (job_id : pystr) (j : job) : Job unit :=
  let! st := get in
  put {| jobs := <[job_id := j]> (jobs st);
         payment_instances := payment_instances st |}.

(** [payment_instances[job_id] = p] *)
Definition store_payment (job_id : pystr) (p : payment) : Job unit :=
  let! st := get in
  put {| jobs := jobs st;
         payment_instances := <[job_id := p]> (payment_instances st) |}.

(** [payment_instances[job_id]]: raises [KeyError] when absent. *)
Definition get_payment (job_id : pystr) : Job payment :=
  let! st := get in
  match payment_instances st !! job_id with
  | Some p => ret p
  | None => raise (KeyError job_id)
  end.

(** Lines 213-215 and 222-224, the same three lines twice:
<<
    if job_id in payment_instances:
        payment_instances[job_id].stop_status_monitoring()
        del payment_instances[job_id]
>>
    [stop] is what the call of [stop_status_monitoring] answers. *)
Definition release_monitor (stop : outcome unit) (job_id : pystr) : Job unit :=
  let! st := get in
  if decide (is_Some (payment_instances st !! job_id)) then
    let! _ := emit (StopStatusMonitoring job_id) in
    let! _ := answer stop in
    let! st' := get in
    put {| jobs := jobs st';
           payment_instances := delete job_id (payment_instances st') |}
  else ret tt.

Record start_job_response := {
  rs_job_id : pystr;
  rs_blockchainIdentifier : pystr
}.

(** [start_job], lines 102-183.  [job_id] is the identifier that
    [uuid.uuid4()] draws.  The construction of the payment object, the
    payment request and the lookup of its identifier are one answer of
    the environment, [create_payment_request]; so are the start of the
    monitor and the lookups that build the response,
    [start_status_monitoring].  Of the response only the job and payment
    identifiers are kept. *)
Definition start_job (env : environment) (job_id : pystr)
    (data : StartJobRequest) : Job start_job_response :=
  try_except
    (let! _ := match rq_input_data data !! py "text" with
               | Some _ => ret tt
               | None => raise (KeyError (py "text"))
               end in
     let! _ := emit CreatePaymentRequest in
     let! pid := answer (create_payment_request env) in
     let pay := {| pay_identifier_from_purchaser := rq_identifier_from_purchaser data;
                   pay_input_data := rq_input_data data;
                   payment_ids := {[ pid ]} |} in
     let! _ := store_job job_id
                 {| status := awaiting_payment;
                    payment_status := Some (py "pending");
                    payment_id := pid;
                    input_data := rq_input_data data;
                    result := None;
                    identifier_from_purchaser := rq_identifier_from_purchaser data;
                    error := None |} in
     let! _ := store_payment job_id pay in
     let! _ := emit (StartStatusMonitoring job_id) in
     let! _ := answer (start_status_monitoring env) in
     ret {| rs_job_id := job_id; rs_blockchainIdentifier := pid |})
    (fun e =>
       let! _ := emit (LogError (str_exn e)) in
       raise (HTTPException 400)).

(** Line 194: [jobs[job_id]["status"] = "running"]. *)
Definition begin_job (job_id : pystr) : Job unit :=
  set_job_item job_id (set_status running).

(** Lines 195-215: the rest of the body of the [try]. *)
Definition finish_job (env : environment) (job_id payment_id : pystr)
    : Job unit :=
  let! j := get_job job_id in
  let! _ := emit (ExecuteCrewTask (input_data j)) in
  let! result := answer (execute_crew_task env (input_data j)) in
  let result_dict := json_dict result in
  let! _ := get_payment job_id in
  let! _ := emit (CompletePayment job_id payment_id result_dict) in
  let! _ := answer (complete_payment env payment_id result_dict) in
  let! _ := set_job_item job_id (set_status completed) in
  let! _ := set_job_item job_id (set_payment_status (Some (py "completed"))) in
  let! _ := set_job_item job_id (set_result (Some result)) in
  release_monitor (stop_in_body env) job_id.

(** Lines 216-224: the handler of the [try]. *)
Definition fail_job (env : environment) (job_id : pystr) (e : exn) : Job unit :=
  let! _ := emit (LogError (str_exn e)) in
  let! _ := set_job_item job_id (set_status failed) in
  let! _ := set_job_item job_id (set_error (Some (str_exn e))) in
  release_monitor (stop_in_handler env) job_id.

(** [handle_payment_status], lines 188-224. *)
Definition handle_payment_status (env : environment)
    (job_id payment_id : pystr) : Job unit :=
  try_except
    (let! _ := begin_job job_id in
     finish_job env job_id payment_id)
    (fail_job env job_id).

Record status_response := {
  sr_job_id : pystr;
  sr_status : job_status;
  sr_payment_status : option pystr;
  sr_result : option pystr
}.

(** [get_status], lines 230-261. *)
Definition get_status (env : environment) (job_id : pystr) : Job status_response :=
  let! st := get in
  match jobs st !! job_id with
  | None => raise (HTTPException 404)
  | Some _ =>
      let! _ :=
        if decide (is_Some (payment_instances st !! job_id)) then
          try_except
            (let! _ := emit (CheckPaymentStatus job_id) in
             let! s := answer (check_payment_status env) in
             set_job_item job_id (set_payment_status s))
            (fun e =>
               match e with
               | ValueError _ =>
                   set_job_item job_id (set_payment_status (Some (py "unknown")))
               | _ =>
                   let! _ := emit (LogError (str_exn e)) in
                   set_job_item job_id (set_payment_status (Some (py "error")))
               end)
        else ret tt in
      let! job := get_job job_id in
      ret {| sr_job_id := job_id;
             sr_status := status job;
             sr_payment_status := payment_status job;
             sr_result := match result job with
                          | Some r => raw r
                          | None => None
                          end |}
  end.

End Jobs.

(* ===================================================================== *)
(** ** The webhook pipeline ([handle_webhook], [process_waha_message],
       [map_waha_internal_id_to_group_id], [WAHAClient])                 *)
(* ===================================================================== *)

Module Webhook.
Import PyStr Effects.

(** [webhook_data["payload"]], as far as the pipeline reads it.  A field
    that is [None] is absent from the dictionary. *)
Record message := {
  m_id : option pystr;
  m_from : option pystr;
  m_to : option pystr;
  m_type : option pystr;
  m_fromMe : bool;
  m_body : option pystr;
  m_sender_name : option pystr
}.

Definition no_fields : message :=
  {| m_id := None; m_from := None; m_to := None; m_type := None;
     m_fromMe := false; m_body := None; m_sender_name := None |}.

(** The event the transport posts.  [serialized] is [str(webhook_data)],
    the text of the whole dictionary, which holds more than the fields
    above. *)
Record webhook := {
  event_type : option pystr;
  payload : option message;
  serialized : pystr
}.

Inductive level := Info | Warning | Error.

(** The log records that mark a decision of the pipeline. *)
Inductive record :=
| ClientNotInitialized
| NonMessageEvent
| SkippingDuplicate (message_id : option pystr)
| ClearedOldIds
| MappedGroup (group_name group_id : pystr)
| CouldNotMap (internal_id : pystr)
| CouldNotMarkAsRead (e : exn)
| SkippingNonText (message_type : pystr)
| EmptyMessage
| NoTrigger
| NoMessageAfterTrigger
| Truncated
| FailedToSendResponse (e : exn)
| Responded
| ErrorProcessing (e : exn)
| FailedToSendErrorMessage (e : exn)
| ErrorInClient (e : exn).

(** Calls to collaborators and log records, in the order they happen. *)
Inductive event :=
| Sleep                                       (* [asyncio.sleep(1)] *)
| ExecuteCrewTask (instruction : pystr)
| PostSendText (chat_id : option pystr) (text : pystr)
               (quoted_msg_id : option pystr) (* POST /api/sendText *)
| PostSendSeen (msg_id : option pystr)        (* POST /api/sendSeen *)
| Log (l : level) (r : record).

(** What the collaborators answer, and whether the module-level
    [waha_client] was initialised. *)
Record environment := {
  waha_client : bool;
  execute_crew_task : pystr -> outcome Jobs.crew_output;
  post_send_text : option pystr -> pystr -> option pystr -> outcome unit;
  post_send_seen : option pystr -> outcome unit
}.

(** The state is the module-level set [processed_message_ids]. *)
Abbreviation Hook A := (M (gset (option pystr)) event A).

(** *** [WAHAClient] *)

(** [send_text_message(self, to, message, reply_to_message_id=None)],
    waha_client.py lines 102-149. *)
Definition send_text_message (env : environment) (to : option pystr)
    (message : pystr) (reply_to_message_id : option pystr) : Hook unit :=
  let quoted := if truthy reply_to_message_id then reply_to_message_id else None in
  try_except
    (let! _ := emit (PostSendText to message quoted) in
     answer (post_send_text env to message quoted))
    (fun e =>
       let! _ := emit (Log Error (ErrorInClient e)) in
       raise e).

(** [mark_as_read(self, message_id)], waha_client.py lines 188-215,
    called with the positional arguments [args].  Python binds the
    arguments to the parameters before it runs the body, and raises
    [TypeError] when their numbers differ. *)
Definition mark_as_read (env : environment) (args : list (option pystr))
    : Hook unit :=
  match args with
  | [message_id] =>
      try_except
        (let! _ := emit (PostSendSeen message_id) in
         answer (post_send_seen env message_id))
        (fun e =>
           let! _ := emit (Log Error (ErrorInClient e)) in
           raise e)
  | _ =>
      raise (TypeError
               (py "mark_as_read() takes 2 positional arguments"))
  end.

(** *** Group ID mapping *)

Definition golf_flag : N := 0x26F3.

Definition known_groups : list (pystr * pystr) :=
  [ (py "nerds", py "120363422170611614@g.us");
    (py "BTC-svip-76", py "120363038777117231@g.us");
    (py "Golfing " ++ [golf_flag], py "13065365236-1631906035@g.us");
    (py "Uber", py "17059848341-1629060796@g.us");
    (py "Apple Tree-ers", py "17059848341-1626995520@g.us") ].

(** The match of [\d+@g\.us] that starts at the head of [s], if any. *)
Definition match_group_id (s : pystr) : option pystr :=
  let digits := takewhile isdigit s in
  match digits with
  | [] => None
  | _ :: _ =>
      if startswith (drop (length digits) s) (py "@g.us")
      then Some (digits ++ py "@g.us")
      else None
  end.

(** [re.findall(r'(\d+@g\.us)', s)[0]] when the list is not empty: the
    leftmost match. *)
Fixpoint first_group_id (s : pystr) : option pystr :=
  match match_group_id s with
  | Some m => Some m
  | None =>
      match s with
      | [] => None
      | _ :: s' => first_group_id s'
      end
  end.

(** The loop over [known_groups.items()], lines 370-373. *)
Fixpoint find_known_group (groups : list (pystr * pystr)) (webhook_str : pystr)
    : option (pystr * pystr) :=
  match groups with
  | [] => None
  | (group_name, group_id) :: rest =>
      if contains webhook_str (lower group_name)
      then Some (group_name, group_id)
      else find_known_group rest webhook_str
  end.

(** [map_waha_internal_id_to_group_id], lines 357-383. *)
Definition map_waha_internal_id_to_group_id (internal_id : pystr)
    (webhook_data : webhook) : Hook pystr :=
  let webhook_str := lower (serialized webhook_data) in
  match find_known_group known_groups webhook_str with
  | Some (group_name, group_id) =>
      let! _ := emit (Log Info (MappedGroup group_name group_id)) in
      ret group_id
  | None =>
      match first_group_id (serialized webhook_data) with
      | Some m => ret m
      | None =>
          let! _ := emit (Log Warning (CouldNotMap internal_id)) in
          ret internal_id
      end
  end.

(** *** Message processing *)

(** [f and "@g.us" in f] *)
Definition has_group_domain (f : option pystr) : bool :=
  match f with
  | Some s => truthy f && contains s (py "@g.us")
  | None => false
  end.

(** The chain of lines 427-438, which lines 548-553 repeat. *)
Definition resolve_chat_id (from_field to_field : option pystr) : option pystr :=
  if has_group_domain from_field then from_field
  else if has_group_domain to_field then to_field
  else to_field.

(** [chat_id and not chat_id.endswith(('@c.us', '@g.us'))], line 450. *)
Definition is_internal_id (chat_id : option pystr) : bool :=
  match chat_id with
  | Some s => truthy chat_id && negb (endswith_any s [py "@c.us"; py "@g.us"])
  | None => false
  end.

Definition max_response_length : nat := 200.

(** Lines 502-503. *)
Definition truncate_response (response_text : pystr) : pystr :=
  if (max_response_length <? length response_text)%nat
  then rsplit1_head 32 (take max_response_length response_text) ++ py "..."
  else response_text.

(** The character class of the pattern of line 510. *)
Definition in_emoji_class (c : N) : bool :=
  ((0x1F600 <=? c) && (c <=? 0x1F64F))
  || ((0x1F300 <=? c) && (c <=? 0x1F5FF))
  || ((0x1F680 <=? c) && (c <=? 0x1F6FF))
  || ((0x1F1E0 <=? c) && (c <=? 0x1F1FF))
  || ((0x2600 <=? c) && (c <=? 0x27BF))
  || ((0x1F900 <=? c) && (c <=? 0x1F9FF))
  || ((0x1F018 <=? c) && (c <=? 0x1F0FF))
  || ((0x1F200 <=? c) && (c <=? 0x1F2FF))
  || isspace c.

(** [re.sub(r'^[...]*', '', response_text.strip())], line 510: the
    pattern is anchored at the start and matches there only. *)
Definition clean_response (response_text : pystr) : pystr :=
  dropwhile in_emoji_class (strip response_text).

Definition robot : N := 0x1F916.
Definition underscore : N := 95.

(** Line 511. *)
Definition formatted_response (clean : pystr) : pystr :=
  [robot; 32; underscore] ++ clean ++ [underscore].

Definition cross_mark : N := 0x274C.

Definition error_message : pystr :=
  cross_mark ::
  py " Sorry, I encountered an error processing your message. Please try again later.".

Definition payload_of (webhook_data : webhook) : message :=
  match payload webhook_data with
  | Some m => m
  | None => no_fields
  end.

(** [result.raw if hasattr(result, "raw") else str(result)] *)
Definition response_text_of (result : Jobs.crew_output) : pystr :=
  match Jobs.raw result with
  | Some r => r
  | None => Jobs.as_str result
  end.

(** Lines 462-535: what follows the attempt to mark the message as read. *)
Definition respond (env : environment) (message_data : message)
    (message_id chat_id : option pystr) : Hook unit :=
  let message_type := default (py "chat") (m_type message_data) in
  if negb (bool_decide (message_type ∈ [py "text"; py "chat"])) then
    emit (Log Info (SkippingNonText message_type))
  else
  let message_text := default [] (m_body message_data) in
  if bool_decide (strip message_text = []) then
    emit (Log Info EmptyMessage)
  else
  if negb (startswith (lower message_text) (py "gg")) then
    emit (Log Info NoTrigger)
  else
  let clean_message := strip (drop 2 message_text) in
  if bool_decide (clean_message = []) then
    emit (Log Info NoMessageAfterTrigger)
  else
  let! _ := emit Sleep in
  let! _ := emit (ExecuteCrewTask clean_message) in
  let! result := answer (execute_crew_task env clean_message) in
  let response_text := response_text_of result in
  let! _ := if (max_response_length <? length response_text)%nat
            then emit (Log Info Truncated) else ret tt in
  let response_text := truncate_response response_text in
  let formatted := formatted_response (clean_response response_text) in
  let! _ := try_except
              (send_text_message env chat_id formatted message_id)
              (fun send_error =>
                 let! _ := emit (Log Error (FailedToSendResponse send_error)) in
                 raise send_error) in
  emit (Log Info Responded).

(** Lines 537-562: the handler of the outer [try]. *)
Definition recover (env : environment) (webhook_data : webhook) (e : exn)
    : Hook unit :=
  let! _ := emit (Log Error (ErrorProcessing e)) in
  try_except
    (let message_data := payload_of webhook_data in
     let message_id := m_id message_data in
     let to_field := m_to message_data in
     let from_field := m_from message_data in
     let chat_id := resolve_chat_id from_field to_field in
     if truthy chat_id then
       send_text_message env chat_id error_message message_id
     else ret tt)
    (fun send_error => emit (Log Error (FailedToSendErrorMessage send_error))).

(** [process_waha_message], lines 388-562. *)
Definition process_waha_message (env : environment) (webhook_data : webhook)
    : Hook unit :=
  if negb (waha_client env) then
    emit (Log Error ClientNotInitialized)
  else
  try_except
    (let message_data := payload_of webhook_data in
     let message_id := m_id message_data in
     let! seen := get in
     if bool_decide (message_id ∈ seen) then
       emit (Log Info (SkippingDuplicate message_id))
     else
     let! _ := put ({[ message_id ]} ∪ seen) in
     let! ids := get in
     let! _ := if (1000 <? size ids)%nat
               then let! _ := put ∅ in emit (Log Info ClearedOldIds)
               else ret tt in
     let to_field := m_to message_data in
     let from_field := m_from message_data in
     let chat_id := resolve_chat_id from_field to_field in
     let! chat_id :=
       if is_internal_id chat_id then
         let! mapped := map_waha_internal_id_to_group_id
                          (default [] chat_id) webhook_data in
         ret (Some mapped)
       else ret chat_id in
     let! _ := try_except
                 (mark_as_read env [message_id; chat_id])
                 (fun e => emit (Log Warning (CouldNotMarkAsRead e))) in
     respond env message_data message_id chat_id)
    (recover env webhook_data).

(** [handle_webhook], lines 325-352; [true] is the body
    [{"status": "ok"}], [false] the body that reports an error. *)
Definition handle_webhook (env : environment) (body : webhook) : Hook bool :=
  try_except
    (let! _ :=
       if bool_decide (event_type body ∈ [Some (py "message"); Some (py "message.any")])
       then process_waha_message env body
       else emit (Log Info NonMessageEvent) in
     ret true)
    (fun e => ret false).

End Webhook.

(* ===================================================================== *)
(** ** Vocabulary of the job properties                                  *)
(* ===================================================================== *)

Module JobSpec.
Import PyStr Effects Jobs.

(** The two invariants of a job record: the result is there exactly when
    the job is completed, the error exactly when it has failed. *)
Definition job_inv (j : job) : Prop :=
  (is_Some (result j) ↔ status j = completed) ∧
  (is_Some (error j) ↔ status j = failed).

Definition store_inv (st : store) : Prop :=
  ∀ job_id j, jobs st !! job_id = Some j → job_inv j.

(** The second half of the callback, entered once the job is running:
    the body after line 194 under the handler of the [try]. *)
Definition settle_job (env : environment) (job_id payment_id : pystr)
    : Job unit :=
  try_except (finish_job env job_id payment_id) (fail_job env job_id).

(** The states of the registries that the endpoints and the payment
    callback produce.  The callback of a job is delivered by its payment
    monitor once, while the job awaits its payment; it is split at the
    point where it waits for the task executor, where other requests
    can run.  [late] tells whether the runs may include a callback in
    which the monitor's stop call raises after the payment was
    finalized. *)
Inductive reachable (late : bool) : store → Prop :=
| reach_init :
    reachable late empty_store
| reach_start_job env job_id data st :
    reachable late st →
    reachable late (state_of (start_job env job_id data st))
| reach_begin job_id st j :
    reachable late st →
    jobs st !! job_id = Some j →
    status j = awaiting_payment →
    reachable late (state_of (begin_job job_id st))
| reach_settle env job_id payment_id st j :
    reachable late st →
    jobs st !! job_id = Some j →
    status j = running →
    (late = false → stop_in_body env = Returns tt) →
    reachable late (state_of (settle_job env job_id payment_id st))
| reach_get_status env job_id st :
    reachable late st →
    reachable late (state_of (get_status env job_id st)).

(** The job once the success path has written its three fields. *)
Definition completed_job (out : crew_output) (j : job) : job :=
  set_result (Some out)
    (set_payment_status (Some (py "completed")) (set_status completed j)).

(** The job once the handler has written its two fields. *)
Definition failed_job (e : exn) (j : job) : job :=
  set_error (Some (str_exn e)) (set_status failed j).

(** The job that [/start_job] stores. *)
Definition new_job (data : StartJobRequest) (pid : pystr) : job :=
  {| status := awaiting_payment;
     payment_status := Some (py "pending");
     payment_id := pid;
     input_data := rq_input_data data;
     result := None;
     identifier_from_purchaser := rq_identifier_from_purchaser data;
     error := None |}.

Definition with_job (st : store) (job_id : pystr) (j : job) : store :=
  {| jobs := <[job_id := j]> (jobs st);
     payment_instances := payment_instances st |}.

Definition released (st : store) (job_id : pystr) : store :=
  {| jobs := jobs st;
     payment_instances := delete job_id (payment_instances st) |}.

Definition is_stop (job_id : pystr) (ev : event) : bool :=
  match ev with
  | StopStatusMonitoring j => bool_decide (j = job_id)
  | _ => false
  end.

(** How many times the monitor of [job_id] was told to stop. *)
Definition count_stops (job_id : pystr) (t : list event) : nat :=
  length (List.filter (is_stop job_id) t).

(** A run of the collaborators used in the examples. *)
Definition done : crew_output :=
  {| raw := Some (py "done"); as_str := py "done"; json_dict := None |}.

Definition sample_env (exec : outcome crew_output) (pay stop1 stop2 : outcome unit)
    : environment :=
  {| create_payment_request := Returns (py "pay-1");
     start_status_monitoring := Returns tt;
     execute_crew_task := λ _, exec;
     complete_payment := λ _ _, pay;
     stop_in_body := stop1;
     stop_in_handler := stop2;
     check_payment_status := Returns None |}.

Definition sample_request : StartJobRequest :=
  {| rq_identifier_from_purchaser := py "alice";
     rq_input_data := {[ py "text" := py "hi" ]} |}.

Definition boom : exn := Failure (py "boom").

(** The registries after [/start_job] on the empty registries. *)
Definition created : store :=
  state_of (start_job (sample_env (Returns done) (Returns tt) (Returns tt) (Returns tt))
              (py "job-1") sample_request empty_store).

End JobSpec.

(* ===================================================================== *)
(** ** Vocabulary of the webhook properties                              *)
(* ===================================================================== *)

Module HookSpec.
Import PyStr Effects Webhook.

(** [sub] occurs in [s]. *)
Definition occurs_in (sub s : pystr) : Prop :=
  ∃ pre post, s = pre ++ sub ++ post.


(** The text begins with the two letters of the keyword, in either case. *)
Definition starts_with_keyword (text : pystr) : Prop :=
  ∃ c1 c2 rest,
    text = c1 :: c2 :: rest ∧ (c1 = 103 ∨ c1 = 71) ∧ (c2 = 103 ∨ c2 = 71).

Definition is_execution (ev : event) : bool :=
  match ev with ExecuteCrewTask _ => true | _ => false end.

Definition is_send (ev : event) : bool :=
  match ev with PostSendText _ _ _ => true | _ => false end.

Definition is_read_receipt (ev : event) : bool :=
  match ev with PostSendSeen _ => true | _ => false end.

Definition is_log (ev : event) : bool :=
  match ev with Log _ _ => true | _ => false end.

(** Neither the task executor nor the send endpoint is called. *)
Definition quiet (t : list event) : Prop :=
  ∀ ev, ev ∈ t → is_execution ev = false ∧ is_send ev = false.

(** The instructions handed to the task executor, in order. *)
Definition executions (t : list event) : list pystr :=
  omap (λ ev, match ev with ExecuteCrewTask i => Some i | _ => None end) t.

(** The messages posted to the transport, in order. *)
Definition sends (t : list event) : list (option pystr * pystr * option pystr) :=
  omap (λ ev, match ev with
              | PostSendText c m q => Some (c, m, q)
              | _ => None
              end) t.

(** Lines 408-413 on the registry. *)
Definition remember_id (message_id : option pystr) (seen : gset (option pystr))
    : gset (option pystr) :=
  let ids := {[ message_id ]} ∪ seen in
  if (1000 <? size ids)%nat then ∅ else ids.

(** What [map_waha_internal_id_to_group_id] returns. *)
Definition mapped_id (internal_id : pystr) (webhook_data : webhook) : pystr :=
  match find_known_group known_groups (lower (serialized webhook_data)) with
  | Some (_, group_id) => group_id
  | None =>
      match first_group_id (serialized webhook_data) with
      | Some m => m
      | None => internal_id
      end
  end.

(** What it logs. *)
Definition mapping_log (internal_id : pystr) (webhook_data : webhook)
    : list event :=
  match find_known_group known_groups (lower (serialized webhook_data)) with
  | Some (group_name, group_id) => [Log Info (MappedGroup group_name group_id)]
  | None =>
      match first_group_id (serialized webhook_data) with
      | Some m => []
      | None => [Log Warning (CouldNotMap internal_id)]
      end
  end.

(** The chat identifier the main path holds after line 452. *)
Definition final_chat_id (webhook_data : webhook) : option pystr :=
  let chat_id := resolve_chat_id (m_from (payload_of webhook_data))
                   (m_to (payload_of webhook_data)) in
  if is_internal_id chat_id
  then Some (mapped_id (default [] chat_id) webhook_data)
  else chat_id.

(** The exception of the call of line 458. *)
Definition arity_error : exn :=
  TypeError (py "mark_as_read() takes 2 positional arguments").

(** The trace of lines 400-460 on a message that is not a duplicate. *)
Definition prelude (webhook_data : webhook) (seen : gset (option pystr))
    : list event :=
  let message_id := m_id (payload_of webhook_data) in
  let chat_id := resolve_chat_id (m_from (payload_of webhook_data))
                   (m_to (payload_of webhook_data)) in
  (if (1000 <? size ({[ message_id ]} ∪ seen))%nat
   then [Log Info ClearedOldIds] else [])
  ++ (if is_internal_id chat_id
      then mapping_log (default [] chat_id) webhook_data else [])
  ++ [Log Warning (CouldNotMarkAsRead arity_error)].

Definition prepend {A} (t0 : list event)
    (r : outcome A * gset (option pystr) * list event)
    : outcome A * gset (option pystr) * list event :=
  (r.1.1, r.1.2, t0 ++ r.2).

(** The stages after the read receipt under the handler of the outer
    [try]. *)
Definition answer_message (env : environment) (webhook_data : webhook)
    : Hook unit :=
  try_except
    (respond env (payload_of webhook_data) (m_id (payload_of webhook_data))
       (final_chat_id webhook_data))
    (recover env webhook_data).

(** The message passes the filters of lines 462-488: it is of a text
    type, begins with the keyword, and something is left once the keyword
    is cut off. *)
Definition triggers (msg : message) : Prop :=
  default (py "chat") (m_type msg) ∈ [py "text"; py "chat"] ∧
  starts_with_keyword (default [] (m_body msg)) ∧
  strip (drop 2 (default [] (m_body msg))) ≠ [].

(** The text after the keyword, trimmed. *)
Definition instruction (msg : message) : pystr :=
  strip (drop 2 (default [] (m_body msg))).

(** What [send_text_message] puts in the field [quotedMsgId]. *)
Definition quoted (message_id : option pystr) : option pystr :=
  if truthy message_id then message_id else None.

(** The trace of the handler of the outer [try] on the exception [e]. *)
Definition recover_trace (env : environment) (webhook_data : webhook) (e : exn)
    : list event :=
  let msg := payload_of webhook_data in
  let chat_id := resolve_chat_id (m_from msg) (m_to msg) in
  Log Error (ErrorProcessing e) ::
  if truthy chat_id then
    match post_send_text env chat_id error_message (quoted (m_id msg)) with
    | Returns _ => [PostSendText chat_id error_message (quoted (m_id msg))]
    | Raises e' =>
        [PostSendText chat_id error_message (quoted (m_id msg));
         Log Error (ErrorInClient e');
         Log Error (FailedToSendErrorMessage e')]
    end
  else [].

(** Lines 500-511 on the text of the task executor. *)
Definition shaped_response (response_text : pystr) : pystr :=
  formatted_response (clean_response (truncate_response response_text)).

(** The run of lines 490-535 on a message that passed the filters. *)
Definition triggered_run (env : environment) (msg : message)
    (message_id chat_id : option pystr) (s : gset (option pystr))
    : outcome unit * gset (option pystr) * list event :=
  match execute_crew_task env (instruction msg) with
  | Raises e => (Raises e, s, [Sleep; ExecuteCrewTask (instruction msg)])
  | Returns out =>
      let text := response_text_of out in
      let head :=
        [Sleep; ExecuteCrewTask (instruction msg)]
        ++ (if (max_response_length <? length text)%nat
            then [Log Info Truncated] else [])
        ++ [PostSendText chat_id (shaped_response text) (quoted message_id)] in
      match post_send_text env chat_id (shaped_response text) (quoted message_id) with
      | Returns _ => (Returns tt, s, head ++ [Log Info Responded])
      | Raises e =>
          (Raises e, s,
           head ++ [Log Error (ErrorInClient e);
                    Log Error (FailedToSendResponse e)])
      end
  end.

(** The registry after a sequence of events. *)
Definition registry_after (env : environment) (events : list webhook)
    (seen : gset (option pystr)) : gset (option pystr) :=
  fold_left (λ s webhook_data, state_of (process_waha_message env webhook_data s))
    events seen.



(** The text has the shape of the pattern of line 377: digits, at least
    one, and the group domain. *)
Definition group_id_shape (m : pystr) : Prop :=
  ∃ ds, ds ≠ [] ∧ Forall (λ c, isdigit c = true) ds ∧ m = ds ++ py "@g.us".

(** [m] is the leftmost part of [s] of that shape. *)
Definition first_match (m s : pystr) : Prop :=
  ∃ pre post,
    s = pre ++ m ++ post ∧ group_id_shape m ∧
    ∀ pre' m' post',
      s = pre' ++ m' ++ post' → group_id_shape m' →
      (length pre ≤ length pre')%nat.

(** No known group name occurs in the lowered text. *)
Definition no_known_group (ws : pystr) : Prop :=
  ∀ name gid, (name, gid) ∈ known_groups → ¬ occurs_in (lower name) ws.

(** The message identifiers of a sequence of events. *)
Definition message_ids (events : list webhook) : list (option pystr) :=
  map (λ webhook_data, m_id (payload_of webhook_data)) events.

(** A message event with the given fields. *)
Definition text_message (message_id from_field to_field : option pystr)
    (body : pystr) (serialized : pystr) : webhook :=
  {| event_type := Some (py "message");
     payload := Some {| m_id := message_id; m_from := from_field;
                        m_to := to_field; m_type := Some (py "chat");
                        m_fromMe := false; m_body := Some body;
                        m_sender_name := None |};
     serialized := serialized |}.

(** Collaborators used in the examples: the executor answers [exec], the
    transport accepts every post. *)
Definition chat_env (exec : outcome Jobs.crew_output) : environment :=
  {| waha_client := true;
     execute_crew_task := λ _, exec;
     post_send_text := λ _ _ _, Returns tt;
     post_send_seen := λ _, Returns tt |}.

Definition says (text : pystr) : outcome Jobs.crew_output :=
  Returns {| Jobs.raw := Some text; Jobs.as_str := text; Jobs.json_dict := None |}.

(** The [n]-th of a sequence of trigger messages with distinct IDs. *)
Definition numbered (n : nat) : webhook :=
  text_message (Some [N.of_nat n]) (Some (py "1@c.us")) (Some (py "2@c.us"))
    (py "gg hi") [].

(** An event whose destination is an internal identifier, in a chat
    whose name is in the table of known groups. *)
Definition internal_event : webhook :=
  text_message (Some (py "m1")) (Some (py "1@c.us")) (Some (py "abc123"))
    (py "gg hi")
    (py "{'event': 'message', 'payload': {'id': 'm1', 'from': '1@c.us', 'to': 'abc123', 'body': 'gg hi', '_data': {'notifyName': 'nerds'}}}").

(** An event whose [to] field is the empty string, in a chat whose name
    is in the table of known groups. *)
Definition empty_to_event : webhook :=
  text_message (Some (py "m2")) (Some (py "1@c.us")) (Some [])
    (py "gg hi")
    (py "{'event': 'message', 'payload': {'id': 'm2', 'from': '1@c.us', 'to': '', 'body': 'gg hi', '_data': {'notifyName': 'nerds'}}}").


(** An event whose destination is an internal identifier and whose
    serialized text holds a group identifier that begins with the
    Arabic-Indic digit three (U+0663). *)
Definition foreign_digits_event : webhook :=
  text_message (Some (py "m5")) (Some (py "1@c.us")) (Some (py "abc123"))
    (py "gg hi")
    (py "{'event': 'message', 'payload': {'id': 'm5', 'from': '1@c.us', 'to': 'abc123', 'body': 'gg hi', '_data': {'chat': '"
     ++ 1635 :: py "123@g.us'}}}").


(** A text of 250 characters whose only white space is a line feed. *)
Definition two_lines : pystr := repeat 97 100 ++ 10 :: repeat 98 149.

Definition executor_failure : exn := Failure (py "boom").

End HookSpec.

(* ===================================================================== *)
(** ** Vocabulary of the further webhook properties                      *)
(* ===================================================================== *)

Module ReplySpec.
Import PyStr Effects Webhook HookSpec.

(** The apology of the handler: one send to the destination of the
    from/to chain when it is not empty, else none. *)
Definition apology_sends (webhook_data : webhook)
    : list (option pystr * pystr * option pystr) :=
  let msg := payload_of webhook_data in
  let chat_id := resolve_chat_id (m_from msg) (m_to msg) in
  if truthy chat_id then [(chat_id, error_message, quoted (m_id msg))] else [].

(** The reply of the main path to the text of the task executor. *)
Definition reply_send (webhook_data : webhook) (out : Jobs.crew_output)
    : option pystr * pystr * option pystr :=
  (final_chat_id webhook_data,
   shaped_response (response_text_of out),
   quoted (m_id (payload_of webhook_data))).

End ReplySpec.

(* ===================================================================== *)
(** ** The rest of [WAHAClient] and the management endpoints             *)
(* ===================================================================== *)

Module Client.
Import PyStr Effects.

(** JSON values, as requests carry them and responses return them. *)
#[local] Unset Elimination Schemes.
Inductive json :=
| JNull
| JBool (b : bool)
| JInt (n : Z)
| JFloat (literal : pystr)
| JString (s : pystr)
| JList (items : list json)
| JObject (fields : list (pystr * json)).
#[local] Set Elimination Schemes.

Fixpoint assoc (key : pystr) (fields : list (pystr * json)) : option json :=
  match fields with
  | [] => None
  | (k, v) :: rest => if bool_decide (k = key) then Some v else assoc key rest
  end.

(** [type(d).__name__] of a decoded value. *)
Definition type_name (d : json) : pystr :=
  match d with
  | JNull => py "NoneType"
  | JBool _ => py "bool"
  | JInt _ => py "int"
  | JFloat _ => py "float"
  | JString _ => py "str"
  | JList _ => py "list"
  | JObject _ => py "dict"
  end.

(** The [AttributeError] of [d.get] on a value that has no such method;
    the code only logs it and takes its text. *)
Definition attribute_error (d : json) : exn :=
  Failure (py "'" ++ type_name d ++ py "' object has no attribute 'get'").

(** [d.get(key, default)]: only a dictionary has the method. *)
Definition dict_get (d : json) (key : pystr) (fallback : json) : outcome json :=
  match d with
  | JObject fields => Returns (default fallback (assoc key fields))
  | _ => Raises (attribute_error d)
  end.

Inductive verb := GET | POST | PUT.

(** Requests and error records, in the order they happen.  For a [GET]
    the third field holds the query parameters. *)
Inductive event :=
| Request (v : verb) (url : pystr) (body : json)
| LogError (e : exn).

(** The configuration read from the process environment, whether the
    module-level [waha_client] was initialised, and what the transport
    answers: [http] stands for the request, the check of the status code
    and the decoding of the body. *)
Record environment := {
  waha_client : bool;
  base_url : pystr;
  session_name : pystr;
  webhook_url : pystr;
  http : verb → pystr → json → outcome json
}.

Abbreviation Api A := (M unit event A).

(** The body that every method shares: the request under a handler that
    logs the exception and raises it again. *)
Definition call (env : environment) (v : verb) (url : pystr) (body : json)
    : Api json :=
  try_except
    (let! _ := emit (Request v url body) in
     answer (http env v url body))
    (fun e =>
       let! _ := emit (LogError e) in
       raise e).

(** [start_session], waha_client.py lines 29-62. *)
Definition start_session (env : environment) : Api json :=
  call env POST (base_url env ++ py "/api/sessions/start")
    (JObject
       [ (py "name", JString (session_name env));
         (py "config",
          JObject
            [ (py "webhooks",
               JList
                 [ JObject
                     [ (py "url", JString (webhook_url env));
                       (py "events", JList [JString (py "message")]) ] ]) ]) ]).

(** [get_session_status], lines 64-81. *)
Definition get_session_status (env : environment) : Api json :=
  call env GET (base_url env ++ py "/api/sessions/" ++ session_name env) JNull.

(** [get_qr_code], lines 83-100: the lookup of ["qr"] is inside the
    [try]. *)
Definition get_qr_code (env : environment) : Api json :=
  try_except
    (let! _ := emit (Request GET
                       (base_url env ++ py "/api/sessions/" ++ session_name env
                        ++ py "/auth/qr") JNull) in
     let! result := answer (http env GET
                              (base_url env ++ py "/api/sessions/"
                               ++ session_name env ++ py "/auth/qr") JNull) in
     answer (dict_get result (py "qr") (JString [])))
    (fun e =>
       let! _ := emit (LogError e) in
       raise e).

(** [send_reaction], lines 151-186. *)
Definition send_reaction (env : environment) (to message_id emoji : pystr)
    : Api json :=
  call env PUT (base_url env ++ py "/api/reaction")
    (JObject [ (py "session", JString (session_name env));
               (py "chatId", JString to);
               (py "msgId", JString message_id);
               (py "reaction", JString emoji) ]).

(** [get_chats], lines 217-238. *)
Definition get_chats (env : environment) : Api json :=
  call env GET (base_url env ++ py "/api/chats")
    (JObject [ (py "session", JString (session_name env)) ]).

(** [get_groups], lines 240-261. *)
Definition get_groups (env : environment) : Api json :=
  call env GET (base_url env ++ py "/api/groups")
    (JObject [ (py "session", JString (session_name env)) ]).

(** [join_group], lines 263-289. *)
Definition join_group (env : environment) (group_id : pystr) : Api json :=
  call env POST (base_url env ++ py "/api/groups/join")
    (JObject [ (py "session", JString (session_name env));
               (py "inviteCode", JString group_id) ]).

(** [leave_group], lines 291-317. *)
Definition leave_group (env : environment) (group_id : pystr) : Api json :=
  call env POST (base_url env ++ py "/api/groups/leave")
    (JObject [ (py "session", JString (session_name env));
               (py "groupId", JString group_id) ]).

(** [get_group_info], lines 319-343. *)
Definition get_group_info (env : environment) (group_id : pystr) : Api json :=
  call env GET (base_url env ++ py "/api/groups/" ++ group_id)
    (JObject [ (py "session", JString (session_name env)) ]).

(** [status.get("status") == "WORKING"] *)
Definition is_working (v : json) : bool :=
  match v with
  | JString s => bool_decide (s = py "WORKING")
  | _ => false
  end.

(** [is_session_ready], lines 345-357. *)
Definition is_session_ready (env : environment) : Api bool :=
  try_except
    (let! status := get_session_status env in
     let! v := answer (dict_get status (py "status") JNull) in
     ret (is_working v))
    (fun e =>
       let! _ := emit (LogError e) in
       ret false).

(** What a management endpoint answers: its return value, or the
    [HTTPException] it raises, which the framework turns into the
    response. *)
Inductive response (A : Type) :=
| Success (data : A)
| HTTPError (status_code : N) (detail : pystr).
Arguments Success {A} data.
Arguments HTTPError {A} status_code detail.

Definition not_initialized : pystr := py "WAHA client not initialized".

(** The frame that the endpoints of main.py lines 567-630 share: the
    check of the client, then the call under a handler that logs and
    raises the 500 error with the text of the exception. *)
Definition endpoint {A} (env : environment) (method : Api A)
    : Api (response A) :=
  if negb (waha_client env) then ret (HTTPError 500 not_initialized)
  else
    try_except
      (let! result := method in ret (Success result))
      (fun e =>
         let! _ := emit (LogError e) in
         ret (HTTPError 500 (str_exn e))).

(** [start_waha_session], main.py lines 567-578. *)
Definition start_waha_session (env : environment) : Api (response json) :=
  endpoint env (start_session env).

(** [get_waha_session_status], lines 580-591. *)
Definition get_waha_session_status (env : environment) : Api (response json) :=
  endpoint env (get_session_status env).

(** [get_waha_qr_code], lines 593-604. *)
Definition get_waha_qr_code (env : environment) : Api (response json) :=
  endpoint env (get_qr_code env).

(** [get_waha_groups], lines 606-617. *)
Definition get_waha_groups (env : environment) : Api (response json) :=
  endpoint env (get_groups env).

(** [join_waha_group], lines 619-630. *)
Definition join_waha_group (env : environment) (group_invite : pystr)
    : Api (response json) :=
  endpoint env (join_group env group_invite).

(** The requests of a trace, in order. *)
Definition requests (t : list event) : list (verb * pystr * json) :=
  omap (λ ev, match ev with
              | Request v u b => Some (v, u, b)
              | LogError _ => None
              end) t.

(** A transport that answers every request with [reply]. *)
Definition answering (reply : outcome json) : environment :=
  {| waha_client := true;
     base_url := py "http://localhost:3000";
     session_name := py "default";
     webhook_url := py "http://localhost:8000/webhook";
     http := λ _ _ _, reply |}.

End Client.

(** [send_waha_message], main.py lines 632-647, on the client of the
    webhook pipeline. *)
Module Management.
Import PyStr Effects Webhook.

Definition send_waha_message (env : environment) (chat_id message : pystr)
    (reply_to : option pystr) : Hook (Client.response unit) :=
  if negb (waha_client env)
  then ret (Client.HTTPError 500 Client.not_initialized)
  else
    try_except
      (let! result := send_text_message env (Some chat_id) message reply_to in
       ret (Client.Success result))
      (fun e =>
         let! _ := emit (Log Error (ErrorInClient e)) in
         ret (Client.HTTPError 500 (str_exn e))).

End Management.

(* ===================================================================== *)
(** ** Properties of the paid job flow                                   *)
(* ===================================================================== *)

Module JobProofs.
Import PyStr Effects Jobs JobSpec.

(** *** The steps on the registries *)

Lemma set_job_item_present st job_id f j :
  jobs st !! job_id = Some j →
  set_job_item job_id f st =
    (Returns tt,
     {| jobs := <[job_id := f j]> (jobs st);
        payment_instances := payment_instances st |}, []).
Proof.
  intros Hj. unfold set_job_item, bind, get, put, raise. simpl.
  rewrite Hj. reflexivity.
Qed.

Lemma set_job_item_absent st job_id f :
  jobs st !! job_id = None →
  set_job_item job_id f st = (Raises (KeyError job_id), st, []).
Proof.
  intros Hj. unfold set_job_item, bind, get, put, raise. simpl.
  rewrite Hj. reflexivity.
Qed.

Lemma get_job_present st job_id j :
  jobs st !! job_id = Some j → get_job job_id st = (Returns j, st, []).
Proof.
  intros Hj. unfold get_job, bind, get, ret. simpl. rewrite Hj. reflexivity.
Qed.

Lemma get_payment_present st job_id p :
  payment_instances st !! job_id = Some p →
  get_payment job_id st = (Returns p, st, []).
Proof.
  intros Hp. unfold get_payment, bind, get, ret. simpl. rewrite Hp. reflexivity.
Qed.

Lemma get_payment_absent st job_id :
  payment_instances st !! job_id = None →
  get_payment job_id st = (Raises (KeyError job_id), st, []).
Proof.
  intros Hp. unfold get_payment, bind, get, raise. simpl. rewrite Hp. reflexivity.
Qed.

Lemma release_monitor_present st job_id p stop :
  payment_instances st !! job_id = Some p →
  release_monitor stop job_id st =
    match stop with
    | Returns _ =>
        (Returns tt,
         {| jobs := jobs st;
            payment_instances := delete job_id (payment_instances st) |},
         [StopStatusMonitoring job_id])
    | Raises e => (Raises e, st, [StopStatusMonitoring job_id])
    end.
Proof.
  intros Hp. unfold release_monitor, bind, get, put, emit, answer. simpl.
  destruct (decide (is_Some (payment_instances st !! job_id))) as [_|Hn].
  - destruct stop as [[]|e]; reflexivity.
  - exfalso. apply Hn. rewrite Hp. eauto.
Qed.

Lemma release_monitor_absent st job_id stop :
  payment_instances st !! job_id = None →
  release_monitor stop job_id st = (Returns tt, st, []).
Proof.
  intros Hp. unfold release_monitor, bind, get, ret. simpl.
  destruct (decide (is_Some (payment_instances st !! job_id))) as [Hs|_].
  - rewrite Hp in Hs. destruct Hs as [? Hs]. discriminate Hs.
  - reflexivity.
Qed.

Lemma with_job_lookup st job_id j : jobs (with_job st job_id j) !! job_id = Some j.
Proof. apply lookup_insert_eq. Qed.

(** The failure handler on a stored job. *)
Lemma fail_job_present env st job_id j e :
  jobs st !! job_id = Some j →
  fail_job env job_id e st =
    match release_monitor (stop_in_handler env) job_id
            (with_job st job_id (failed_job e j)) with
    | (r, st', t) => (r, st', LogError (str_exn e) :: t)
    end.
Proof.
  intros Hj. unfold fail_job.
  unfold bind at 1. unfold emit at 1.
  unfold bind at 1. erewrite set_job_item_present by eassumption.
  unfold bind at 1. erewrite set_job_item_present by apply lookup_insert_eq.
  simpl. rewrite insert_insert_eq.
  unfold with_job, failed_job.
  destruct (release_monitor _ _ _) as [[r st'] t]. reflexivity.
Qed.

(** The body after line 194 on a stored job: the three places where it
    can leave. *)
Lemma finish_job_present env st job_id payment_id j :
  jobs st !! job_id = Some j →
  finish_job env job_id payment_id st =
    match execute_crew_task env (input_data j) with
    | Raises e => (Raises e, st, [ExecuteCrewTask (input_data j)])
    | Returns out =>
        match payment_instances st !! job_id with
        | None => (Raises (KeyError job_id), st, [ExecuteCrewTask (input_data j)])
        | Some _ =>
            match complete_payment env payment_id (json_dict out) with
            | Raises e =>
                (Raises e, st,
                 [ExecuteCrewTask (input_data j);
                  CompletePayment job_id payment_id (json_dict out)])
            | Returns _ =>
                match stop_in_body env with
                | Returns _ =>
                    (Returns tt,
                     released (with_job st job_id (completed_job out j)) job_id,
                     [ExecuteCrewTask (input_data j);
                      CompletePayment job_id payment_id (json_dict out);
                      StopStatusMonitoring job_id])
                | Raises e =>
                    (Raises e,
                     with_job st job_id (completed_job out j),
                     [ExecuteCrewTask (input_data j);
                      CompletePayment job_id payment_id (json_dict out);
                      StopStatusMonitoring job_id])
                end
            end
        end
    end.
Proof.
  intros Hj. unfold finish_job.
  unfold bind at 1. erewrite get_job_present by eassumption.
  unfold bind at 1. unfold emit at 1.
  unfold bind at 1. unfold answer at 1.
  destruct (execute_crew_task env (input_data j)) as [out|e]; [|reflexivity].
  unfold bind at 1.
  destruct (payment_instances st !! job_id) as [p|] eqn:Hp.
  2:{ rewrite get_payment_absent by assumption. reflexivity. }
  erewrite get_payment_present by eassumption.
  unfold bind at 1. unfold emit at 1.
  unfold bind at 1. unfold answer at 1.
  destruct (complete_payment env payment_id (json_dict out)) as [[]|e]; [|reflexivity].
  unfold bind at 1. erewrite set_job_item_present by eassumption.
  unfold bind at 1. erewrite set_job_item_present by apply lookup_insert_eq.
  unfold bind at 1. erewrite set_job_item_present by apply lookup_insert_eq.
  simpl. rewrite !insert_insert_eq.
  erewrite release_monitor_present by (simpl; eassumption).
  unfold released, with_job, completed_job. simpl.
  destruct (stop_in_body env) as [[]|e]; reflexivity.
Qed.

(** The callback on a stored job is its second half run on the job
    marked running. *)
Lemma handle_payment_status_split env st job_id payment_id j :
  jobs st !! job_id = Some j →
  handle_payment_status env job_id payment_id st =
    settle_job env job_id payment_id (with_job st job_id (set_status running j)).
Proof.
  intros Hj. unfold handle_payment_status, settle_job, try_except.
  unfold bind at 1. unfold begin_job.
  erewrite set_job_item_present by eassumption.
  fold (with_job st job_id (set_status running j)).
  destruct (finish_job _ _ _ _) as [[[[]|e] s1] t1]; reflexivity.
Qed.

Lemma begin_job_present st job_id j :
  jobs st !! job_id = Some j →
  begin_job job_id st =
    (Returns tt, with_job st job_id (set_status running j), []).
Proof. intros Hj. unfold begin_job. by erewrite set_job_item_present. Qed.

(** What a successful [/start_job] leaves in the registries. *)
Lemma start_job_returns env job_id data st rs st1 t1 :
  start_job env job_id data st = (Returns rs, st1, t1) →
  ∃ pid,
    create_payment_request env = Returns pid ∧
    st1 = {| jobs := <[job_id := new_job data pid]> (jobs st);
             payment_instances :=
               <[job_id := {| pay_identifier_from_purchaser :=
                                rq_identifier_from_purchaser data;
                              pay_input_data := rq_input_data data;
                              payment_ids := {[ pid ]} |}]>
                 (payment_instances st) |}.
Proof.
  unfold start_job, try_except, bind, emit, answer, store_job, store_payment,
    get, put, ret, raise.
  destruct (rq_input_data data !! py "text") as [txt|]; simpl; [|discriminate].
  destruct (create_payment_request env) as [pid|e]; simpl; [|discriminate].
  destruct (start_status_monitoring env) as [[]|e]; simpl; [|discriminate].
  intros H. injection H as _ <- _. exists pid. split; reflexivity.
Qed.

(** Whatever happens in [/start_job], the registries either stay as they
    were or gain the new job. *)
Lemma start_job_state env job_id data st :
  state_of (start_job env job_id data st) = st ∨
  ∃ pid p,
    state_of (start_job env job_id data st) =
      {| jobs := <[job_id := new_job data pid]> (jobs st);
         payment_instances := <[job_id := p]> (payment_instances st) |}.
Proof.
  unfold start_job, try_except, bind, emit, answer, store_job, store_payment,
    get, put, ret, raise, state_of.
  destruct (rq_input_data data !! py "text") as [txt|]; simpl; [|by left].
  destruct (create_payment_request env) as [pid|e]; simpl; [|by left].
  destruct (start_status_monitoring env) as [[]|e]; simpl; right; eauto.
Qed.

(** The ways the second half of the callback can end on a registered
    job, by what the collaborators answer. *)
Ltac settle_cases env j Hj Hp :=
  unfold settle_job, try_except;
  erewrite finish_job_present by exact Hj;
  rewrite ?Hp;
  destruct (execute_crew_task env (input_data j)) as [?out|?e] eqn:?Hexec;
  [ destruct (complete_payment env _ (json_dict out)) as [[]|?e] eqn:?Hpay;
    [ destruct (stop_in_body env) as [[]|?e] eqn:?Hstop1 | ] | ];
  try (erewrite fail_job_present by first [exact Hj | apply with_job_lookup];
       erewrite release_monitor_present by (simpl; exact Hp);
       destruct (stop_in_handler env) as [[]|?e] eqn:?Hstop2);
  cbn [fst snd app state_of result_of trace_of].

(** *** C1: the job lifecycle *)

(** C1, as amended.  A job created by [/start_job] is stored with status
    [awaiting_payment], payment status [pending] and no result; the
    payment-completion callback first sets its status to [running]; when
    the task execution, the payment finalization and the stop of the
    monitor all succeed, the job ends [completed] with its result; when
    any of the three raises, the job ends [failed] with the error
    recorded. *)
Theorem job_lifecycle env job_id data st rs st1 t1 :
  start_job env job_id data st = (Returns rs, st1, t1) →
  (∃ j0, jobs st1 !! job_id = Some j0 ∧
         status j0 = awaiting_payment ∧
         payment_status j0 = Some (py "pending") ∧
         result j0 = None ∧
         is_Some (payment_instances st1 !! job_id)) ∧
  (∃ j1, jobs (state_of (begin_job job_id st1)) !! job_id = Some j1 ∧
         status j1 = running) ∧
  ∀ env' payment_id,
    let input := rq_input_data data in
    let r := handle_payment_status env' job_id payment_id st1 in
    (∀ out,
       execute_crew_task env' input = Returns out →
       complete_payment env' payment_id (json_dict out) = Returns tt →
       stop_in_body env' = Returns tt →
       result_of r = Returns tt ∧
       ∃ j, jobs (state_of r) !! job_id = Some j ∧
            status j = completed ∧ result j = Some out) ∧
    (∀ e,
       execute_crew_task env' input = Raises e ∨
       (∃ out,
          execute_crew_task env' input = Returns out ∧
          (complete_payment env' payment_id (json_dict out) = Raises e ∨
           (complete_payment env' payment_id (json_dict out) = Returns tt ∧
            stop_in_body env' = Raises e))) →
       ∃ j, jobs (state_of r) !! job_id = Some j ∧
            status j = failed ∧ error j = Some (str_exn e)).
Proof.
  intros Hstart.
  destruct (start_job_returns _ _ _ _ _ _ _ Hstart) as (pid & _ & ->).
  set (p := {| pay_identifier_from_purchaser := _ |}).
  set (st1 := {| jobs := _ |}).
  assert (Hj : jobs st1 !! job_id = Some (new_job data pid))
    by apply lookup_insert_eq.
  assert (Hp : payment_instances st1 !! job_id = Some p)
    by apply lookup_insert_eq.
  split; [|split].
  - exists (new_job data pid). rewrite Hp. repeat split; eauto.
  - erewrite begin_job_present by exact Hj.
    eexists. split; [apply with_job_lookup | reflexivity].
  - intros env' payment_id input r. subst r input.
    erewrite handle_payment_status_split by exact Hj.
    set (j1 := set_status running (new_job data pid)).
    assert (Hj1 : jobs (with_job st1 job_id j1) !! job_id = Some j1)
      by apply with_job_lookup.
    assert (Hp1 : payment_instances (with_job st1 job_id j1) !! job_id = Some p)
      by exact Hp.
    change (rq_input_data data) with (input_data j1).
    split.
    + intros out Hexec Hpay Hstop.
      unfold settle_job, try_except.
      erewrite finish_job_present by exact Hj1.
      rewrite Hexec, Hp1, Hpay, Hstop. cbn.
      split; [reflexivity|].
      eexists. split; [apply lookup_insert_eq | split; reflexivity].
    + intros e Hcase.
      settle_cases env' j1 Hj1 Hp1;
        destruct Hcase as [Hc | (out' & Hc1 & [Hc2 | [Hc2 Hc3]])];
        try congruence;
        try (assert (out' = out) as -> by congruence);
        try (assert (e = e0) as -> by congruence);
        try congruence;
        (eexists; split;
         [ first [ apply lookup_insert_eq
                 | simpl; apply lookup_insert_eq ]
         | split; reflexivity ]).
Qed.

Lemma job_lifecycle_witness :
  let env := sample_env (Returns done) (Returns tt) (Returns tt) (Returns tt) in
  start_job env (py "job-1") sample_request empty_store =
    (Returns {| rs_job_id := py "job-1"; rs_blockchainIdentifier := py "pay-1" |},
     created,
     [CreatePaymentRequest; StartStatusMonitoring (py "job-1")]) ∧
  ∃ j, jobs (state_of (handle_payment_status env (py "job-1") (py "pay-1") created))
         !! py "job-1" = Some j ∧
       status j = completed ∧ result j = Some done.
Proof.
  intros env.
  assert (Hs : start_job env (py "job-1") sample_request empty_store =
    (Returns {| rs_job_id := py "job-1"; rs_blockchainIdentifier := py "pay-1" |},
     created,
     [CreatePaymentRequest; StartStatusMonitoring (py "job-1")]))
    by (vm_compute; reflexivity).
  split; [exact Hs|].
  destruct (job_lifecycle _ _ _ _ _ _ _ Hs) as (_ & _ & Hcb).
  destruct (Hcb env (py "pay-1")) as [Hok _].
  destruct (Hok done eq_refl eq_refl eq_refl) as [_ Hj].
  exact Hj.
Defined.

(** C1, as stated, fails: the task was executed and the payment
    finalized, yet the job ends [failed] when the stop of the monitor
    raises. *)
Lemma finalized_job_ends_failed :
  let env := sample_env (Returns done) (Returns tt) (Raises boom) (Returns tt) in
  let r := handle_payment_status env (py "job-1") (py "pay-1") created in
  execute_crew_task env (rq_input_data sample_request) = Returns done ∧
  complete_payment env (py "pay-1") (json_dict done) = Returns tt ∧
  status <$> jobs (state_of r) !! py "job-1" = Some failed ∧
  status <$> jobs (state_of r) !! py "job-1" ≠ Some completed.
Proof.
  intros env r.
  assert (H : status <$> jobs (state_of r) !! py "job-1" = Some failed)
    by (vm_compute; reflexivity).
  repeat split; try reflexivity. rewrite H. discriminate.
Qed.

(** *** C8: release of the payment monitor *)

Lemma count_stops_one job_id pre post :
  count_stops job_id pre = 0%nat →
  count_stops job_id post = 0%nat →
  count_stops job_id (pre ++ StopStatusMonitoring job_id :: post) = 1%nat.
Proof.
  unfold count_stops. intros Hpre Hpost.
  rewrite List.filter_app, length_app, Hpre. simpl.
  rewrite bool_decide_eq_true_2 by reflexivity. simpl. by rewrite Hpost.
Qed.

(** C8, as amended.  On a registered job whose monitor stops without
    raising, the callback returns with the job in a terminal state, has
    told the monitor to stop exactly once, and has removed the payment
    instance from the registry; running the release step again is then a
    no-op that cannot raise, whatever the monitor would answer. *)
Theorem monitor_release env job_id payment_id st j p :
  jobs st !! job_id = Some j →
  payment_instances st !! job_id = Some p →
  stop_in_body env = Returns tt →
  stop_in_handler env = Returns tt →
  let r := handle_payment_status env job_id payment_id st in
  result_of r = Returns tt ∧
  (∃ j', jobs (state_of r) !! job_id = Some j' ∧
         (status j' = completed ∨ status j' = failed)) ∧
  count_stops job_id (trace_of r) = 1%nat ∧
  payment_instances (state_of r) = delete job_id (payment_instances st) ∧
  ∀ stop, release_monitor stop job_id (state_of r) = (Returns tt, state_of r, []).
Proof.
  intros Hj Hp Hs1 Hs2 r. subst r.
  erewrite handle_payment_status_split by exact Hj.
  set (j1 := set_status running j).
  assert (Hj1 : jobs (with_job st job_id j1) !! job_id = Some j1)
    by apply with_job_lookup.
  assert (Hp1 : payment_instances (with_job st job_id j1) !! job_id = Some p)
    by exact Hp.
  settle_cases env j1 Hj1 Hp1; try congruence.
  all: split; [reflexivity|].
  all: split; [eexists; split; [apply lookup_insert_eq | simpl; tauto]|].
  all: split;
    [ first
        [ apply (count_stops_one job_id [_; _] [])
        | apply (count_stops_one job_id [_; _] [])
        | apply (count_stops_one job_id [_; _; _] []) ]; reflexivity
    | ].
  all: split; [reflexivity|].
  all: intros stop; apply release_monitor_absent; simpl; apply lookup_delete_eq.
Qed.

Lemma monitor_release_witness :
  let env := sample_env (Raises boom) (Returns tt) (Returns tt) (Returns tt) in
  let r := handle_payment_status env (py "job-1") (py "pay-1") created in
  is_Some (jobs created !! py "job-1") ∧
  is_Some (payment_instances created !! py "job-1") ∧
  count_stops (py "job-1") (trace_of r) = 1%nat ∧
  payment_instances (state_of r) = delete (py "job-1") (payment_instances created).
Proof.
  intros env r.
  assert (Hj : jobs created !! py "job-1" =
               Some (new_job sample_request (py "pay-1")))
    by (vm_compute; reflexivity).
  assert (Hp : payment_instances created !! py "job-1" =
               Some {| pay_identifier_from_purchaser := py "alice";
                       pay_input_data := rq_input_data sample_request;
                       payment_ids := {[ py "pay-1" ]} |})
    by (vm_compute; reflexivity).
  split; [rewrite Hj; eauto|]. split; [rewrite Hp; eauto|].
  destruct (monitor_release env (py "job-1") (py "pay-1") created _ _ Hj Hp
              eq_refl eq_refl) as (_ & _ & Hc & Hd & _).
  split; [exact Hc | exact Hd].
Defined.

(** C8, as stated, fails twice.  When the task executor and then the
    stop call of the handler raise, the job reaches the terminal state
    [failed], yet its payment instance stays in the registry and the
    exception leaves the callback.  When the stop call of the body raises
    after a successful run, the monitor is told to stop twice. *)
Lemma failed_job_keeps_monitor :
  let env := sample_env (Raises boom) (Returns tt) (Returns tt) (Raises boom) in
  let r := handle_payment_status env (py "job-1") (py "pay-1") created in
  let env' := sample_env (Returns done) (Returns tt) (Raises boom) (Returns tt) in
  let r' := handle_payment_status env' (py "job-1") (py "pay-1") created in
  status <$> jobs (state_of r) !! py "job-1" = Some failed ∧
  payment_instances (state_of r) !! py "job-1" =
    payment_instances created !! py "job-1" ∧
  is_Some (payment_instances (state_of r) !! py "job-1") ∧
  result_of r = Raises boom ∧
  count_stops (py "job-1") (trace_of r') = 2%nat.
Proof.
  intros env r env' r'.
  assert (H : payment_instances (state_of r) !! py "job-1" =
              Some {| pay_identifier_from_purchaser := py "alice";
                      pay_input_data := rq_input_data sample_request;
                      payment_ids := {[ py "pay-1" ]} |})
    by (vm_compute; reflexivity).
  split; [vm_compute; reflexivity|].
  split; [vm_compute; reflexivity|].
  split; [rewrite H; eauto|].
  split; vm_compute; reflexivity.
Qed.

(** *** C4: the invariant of the job store *)

Lemma job_inv_new data pid : job_inv (new_job data pid).
Proof.
  split; simpl; split; try discriminate; intros [? H]; discriminate H.
Qed.

Lemma job_inv_running j :
  job_inv j → status j = awaiting_payment → job_inv (set_status running j).
Proof.
  intros [Hr He] Hs. split; simpl; split; try discriminate.
  - intros H. apply Hr in H. congruence.
  - intros H. apply He in H. congruence.
Qed.

Lemma job_inv_completed out j :
  job_inv j → status j = running → job_inv (completed_job out j).
Proof.
  intros [Hr He] Hs. split; simpl; split; try discriminate; eauto.
  intros H. apply He in H. congruence.
Qed.

Lemma job_inv_failed e j :
  job_inv j → status j = running → job_inv (failed_job e j).
Proof.
  intros [Hr He] Hs. split; simpl; split; try discriminate; eauto.
  intros H. apply Hr in H. congruence.
Qed.

Lemma job_inv_payment_status v j : job_inv j → job_inv (set_payment_status v j).
Proof. intros H. exact H. Qed.

Lemma store_inv_with_job st job_id j :
  store_inv st → job_inv j → store_inv (with_job st job_id j).
Proof.
  intros Hst Hj k j'. unfold with_job. simpl.
  rewrite lookup_insert. case_decide; [congruence | apply Hst].
Qed.

(** The job that the second half of the callback leaves: completed,
    failed before the completion was written, or failed after it when
    the stop call of the body raised. *)
Lemma settle_job_jobs env st job_id payment_id j :
  jobs st !! job_id = Some j →
  ∃ j',
    jobs (state_of (settle_job env job_id payment_id st)) =
      <[job_id := j']> (jobs st) ∧
    ((∃ out, j' = completed_job out j) ∨
     (∃ e, j' = failed_job e j) ∨
     (∃ out e, stop_in_body env = Raises e ∧
               j' = failed_job e (completed_job out j))).
Proof.
  intros Hj. unfold settle_job, try_except.
  erewrite finish_job_present by exact Hj.
  destruct (execute_crew_task env (input_data j)) as [out|e].
  - destruct (payment_instances st !! job_id) as [p|] eqn:Hp.
    + destruct (complete_payment env payment_id (json_dict out)) as [[]|e].
      * destruct (stop_in_body env) as [[]|e] eqn:Hstop.
        -- eexists. split; [reflexivity|]. left. eauto.
        -- erewrite fail_job_present by apply with_job_lookup.
           destruct (release_monitor _ _ _) as [[r st'] t] eqn:Hrel.
           assert (jobs st' = <[job_id := failed_job e (completed_job out j)]> (jobs st)) as Hst'.
           { erewrite release_monitor_present in Hrel by (simpl; exact Hp).
             destruct (stop_in_handler env) as [[]|e'];
               injection Hrel as _ <- _; simpl; by rewrite insert_insert_eq. }
           eexists. split; [exact Hst'|]. right. right. eauto.
      * erewrite fail_job_present by exact Hj.
        erewrite release_monitor_present by (simpl; exact Hp).
        eexists. split; [|right; left; eauto].
        destruct (stop_in_handler env) as [[]|e']; reflexivity.
    + erewrite fail_job_present by exact Hj.
      rewrite release_monitor_absent by (simpl; exact Hp).
      eexists. split; [reflexivity|]. right; left; eauto.
  - erewrite fail_job_present by exact Hj.
    destruct (payment_instances st !! job_id) as [p|] eqn:Hp.
    + erewrite release_monitor_present by (simpl; exact Hp).
      eexists. split; [|right; left; eauto].
      destruct (stop_in_handler env) as [[]|e']; reflexivity.
    + rewrite release_monitor_absent by (simpl; exact Hp).
      eexists. split; [reflexivity|]. right; left; eauto.
Qed.

(** A status query writes the payment status of the job and nothing
    else. *)
Lemma get_status_jobs env st job_id :
  jobs (state_of (get_status env job_id st)) = jobs st ∨
  ∃ j v, jobs st !! job_id = Some j ∧
         jobs (state_of (get_status env job_id st)) =
           <[job_id := set_payment_status v j]> (jobs st).
Proof.
  unfold get_status, set_job_item, get_job, try_except, bind, emit, answer,
    get, ret, raise, put, state_of. simpl.
  destruct (jobs st !! job_id) as [j|] eqn:Hj; simpl; [|by left].
  destruct (decide _) as [Hp|Hp]; simpl.
  - destruct (check_payment_status env) as [s|e]; simpl.
    + rewrite ?Hj. simpl. rewrite ?lookup_insert_eq. simpl. right. eauto.
    + destruct e; simpl; rewrite ?Hj; simpl; rewrite ?lookup_insert_eq; simpl;
        right; eauto.
  - rewrite ?Hj. simpl. by left.
Qed.

(** C4, as amended.  In every state of the job store that the endpoints
    and the payment callback reach without an exception raised after the
    payment was finalized, a job has a result exactly when its status is
    [completed] and an error exactly when its status is [failed]. *)
Theorem job_store_invariant st :
  reachable false st → store_inv st.
Proof.
  induction 1 as [ | env job_id data st Hreach IH
                   | job_id st j Hreach IH Hj Hs
                   | env job_id payment_id st j Hreach IH Hj Hs Hstop
                   | env job_id st Hreach IH ].
  - intros k j. unfold empty_store. simpl. rewrite lookup_empty. discriminate.
  - destruct (start_job_state env job_id data st) as [-> | (pid & p & ->)];
      [exact IH|].
    intros k j. simpl. rewrite lookup_insert.
    case_decide; [|apply IH]. intros [= <-]. apply job_inv_new.
  - erewrite begin_job_present by exact Hj.
    apply store_inv_with_job; [exact IH|].
    apply job_inv_running; [eapply IH; exact Hj | exact Hs].
  - destruct (settle_job_jobs env st job_id payment_id j Hj)
      as (j' & Hjobs & Hcase).
    intros k jk. rewrite Hjobs, lookup_insert.
    case_decide; [|apply IH]. intros [= <-].
    destruct Hcase as [[out ->] | [[e ->] | (out & e & Hraise & _)]].
    + apply job_inv_completed; [eapply IH; exact Hj | exact Hs].
    + apply job_inv_failed; [eapply IH; exact Hj | exact Hs].
    + rewrite Hstop in Hraise by reflexivity. discriminate.
  - destruct (get_status_jobs env st job_id) as [Heq | (j & v & Hj & Heq)].
    + intros k jk. rewrite Heq. apply IH.
    + intros k jk. rewrite Heq, lookup_insert.
      case_decide; [|apply IH]. intros [= <-].
      apply job_inv_payment_status. eapply IH. exact Hj.
Qed.

Lemma created_reachable late : reachable late created.
Proof. unfold created. apply reach_start_job, reach_init. Qed.

Lemma job_store_invariant_witness :
  let env := sample_env (Returns done) (Returns tt) (Returns tt) (Returns tt) in
  let st := state_of (handle_payment_status env (py "job-1") (py "pay-1") created) in
  reachable false st ∧ store_inv st.
Proof.
  intros env st.
  assert (Hj : jobs created !! py "job-1" =
               Some (new_job sample_request (py "pay-1")))
    by (vm_compute; reflexivity).
  assert (Hr : reachable false st).
  { subst st. erewrite handle_payment_status_split by exact Hj.
    eapply reach_settle with (j := set_status running (new_job sample_request (py "pay-1"))).
    - replace (with_job created (py "job-1") _)
        with (state_of (begin_job (py "job-1") created))
        by (by erewrite begin_job_present).
      eapply reach_begin; [apply created_reachable | exact Hj | reflexivity].
    - apply with_job_lookup.
    - reflexivity.
    - reflexivity. }
  split; [exact Hr|]. exact (job_store_invariant st Hr).
Defined.

(** C4, as stated, fails: a callback in which the stop of the monitor
    raises after the payment was finalized leaves the job [failed] with
    its result set. *)
Lemma failed_job_with_result :
  let env := sample_env (Returns done) (Returns tt) (Raises boom) (Returns tt) in
  let st := state_of (handle_payment_status env (py "job-1") (py "pay-1") created) in
  reachable true st ∧
  ∃ j, jobs st !! py "job-1" = Some j ∧
       status j = failed ∧ result j = Some done ∧ ¬ job_inv j.
Proof.
  intros env st.
  assert (Hj : jobs created !! py "job-1" =
               Some (new_job sample_request (py "pay-1")))
    by (vm_compute; reflexivity).
  split.
  - subst st. erewrite handle_payment_status_split by exact Hj.
    eapply reach_settle with (j := set_status running (new_job sample_request (py "pay-1"))).
    + replace (with_job created (py "job-1") _)
        with (state_of (begin_job (py "job-1") created))
        by (by erewrite begin_job_present).
      eapply reach_begin; [apply created_reachable | exact Hj | reflexivity].
    + apply with_job_lookup.
    + reflexivity.
    + discriminate.
  - exists (failed_job boom
              (completed_job done
                 (set_status running (new_job sample_request (py "pay-1"))))).
    split; [vm_compute; reflexivity|].
    split; [reflexivity|]. split; [reflexivity|].
    intros [Hres _]. simpl in Hres.
    assert (failed = completed) as Habs by (apply Hres; eauto).
    discriminate Habs.
Qed.

End JobProofs.

(* ===================================================================== *)
(** ** Properties of the webhook pipeline                                *)
(* ===================================================================== *)

Module HookProofs.
Import PyStr Effects Webhook HookSpec.

(** *** Strings *)

Lemma startswith_spec s p :
  startswith s p = true ↔ ∃ rest, s = p ++ rest.
Proof.
  revert s. induction p as [|c p IH]; intros s; simpl.
  - split; [intros _; exists s; reflexivity | reflexivity].
  - destruct s as [|d s]; simpl.
    + split; [discriminate | intros [rest H]; discriminate H].
    + rewrite andb_true_iff, N.eqb_eq, IH. split.
      * intros [-> [rest ->]]. eauto.
      * intros [rest [= -> ->]]. eauto.
Qed.

Lemma contains_spec s sub :
  contains s sub = true ↔ occurs_in sub s.
Proof.
  unfold occurs_in. induction s as [|d s IH]; simpl.
  - rewrite orb_false_r, startswith_spec. split.
    + intros [rest H]. exists [], rest. exact H.
    + intros (pre & post & H). destruct pre as [|x pre]; [|discriminate H].
      exists post. exact H.
  - rewrite orb_true_iff, startswith_spec, IH. split.
    + intros [[rest H] | (pre & post & ->)].
      * exists [], rest. exact H.
      * exists (d :: pre), post. reflexivity.
    + intros (pre & post & H). destruct pre as [|x pre].
      * left. exists post. exact H.
      * right. injection H as -> ->. eauto.
Qed.

Lemma endswith_spec s p :
  endswith s p = true ↔ ∃ front, s = front ++ p.
Proof.
  unfold endswith. rewrite startswith_spec. split.
  - intros [rest H]. exists (rev rest).
    rewrite <- (rev_involutive s), H, rev_app_distr, rev_involutive. reflexivity.
  - intros [front ->]. exists (rev front). apply rev_app_distr.
Qed.

Lemma lower_cp_g c : lower_cp c = 103 ↔ c = 103 ∨ c = 71.
Proof.
  unfold lower_cp.
  destruct ((65 <=? c) && (c <=? 90)) eqn:Hup.
  - apply andb_true_iff in Hup as [H1 H2].
    apply N.leb_le in H1, H2. lia.
  - apply andb_false_iff in Hup as [H|H]; apply N.leb_gt in H; lia.
Qed.

(** The test of line 478 holds exactly of the texts that begin with the
    keyword in either case. *)
Lemma trigger_spec text :
  startswith (lower text) (py "gg") = true ↔ starts_with_keyword text.
Proof.
  unfold starts_with_keyword. change (py "gg") with [103; 103].
  destruct text as [|c1 [|c2 rest]]; cbn [lower map startswith].
  - split; [discriminate | intros (? & ? & ? & H & _); discriminate H].
  - rewrite andb_false_r.
    split; [discriminate | intros (? & ? & ? & H & _); discriminate H].
  - rewrite andb_true_r, andb_true_iff, !N.eqb_eq.
    rewrite !(eq_comm 103), !lower_cp_g. split.
    + intros [H1 H2]. exists c1, c2, rest. auto.
    + intros (? & ? & ? & [= <- <- <-] & H1 & H2). auto.
Qed.



(** *** The steps of the pipeline *)

Lemma send_text_message_run env to message reply s :
  let quoted := if truthy reply then reply else None in
  send_text_message env to message reply s =
    match post_send_text env to message quoted with
    | Returns _ => (Returns tt, s, [PostSendText to message quoted])
    | Raises e =>
        (Raises e, s,
         [PostSendText to message quoted; Log Error (ErrorInClient e)])
    end.
Proof.
  intros quoted. unfold send_text_message, try_except, bind, emit, answer, raise.
  fold quoted. destruct (post_send_text env to message quoted) as [[]|e];
    reflexivity.
Qed.

(** The call of line 458 binds two arguments to one parameter. *)
Lemma mark_as_read_two env message_id chat_id s :
  mark_as_read env [message_id; chat_id] s = (Raises arity_error, s, []).
Proof. reflexivity. Qed.

Lemma map_run internal_id webhook_data s :
  map_waha_internal_id_to_group_id internal_id webhook_data s =
    (Returns (mapped_id internal_id webhook_data), s,
     mapping_log internal_id webhook_data).
Proof.
  unfold map_waha_internal_id_to_group_id, mapped_id, mapping_log.
  destruct (find_known_group _ _) as [[name gid]|]; [reflexivity|].
  destruct (first_group_id _); reflexivity.
Qed.

Lemma process_no_client env webhook_data seen :
  waha_client env = false →
  process_waha_message env webhook_data seen =
    (Returns tt, seen, [Log Error ClientNotInitialized]).
Proof. intros H. unfold process_waha_message. rewrite H. reflexivity. Qed.

Lemma process_duplicate env webhook_data seen :
  waha_client env = true →
  m_id (payload_of webhook_data) ∈ seen →
  process_waha_message env webhook_data seen =
    (Returns tt, seen,
     [Log Info (SkippingDuplicate (m_id (payload_of webhook_data)))]).
Proof.
  intros Hc Hin. unfold process_waha_message. rewrite Hc. simpl.
  unfold try_except, bind, get. simpl.
  rewrite bool_decide_eq_true_2 by exact Hin. reflexivity.
Qed.

(** A message that is not a duplicate: the identifier is registered, the
    destination resolved, the read receipt attempted, and the rest of
    the pipeline runs on the registry so updated. *)
Lemma process_fresh env webhook_data seen :
  waha_client env = true →
  m_id (payload_of webhook_data) ∉ seen →
  process_waha_message env webhook_data seen =
    prepend (prelude webhook_data seen)
      (answer_message env webhook_data
         (remember_id (m_id (payload_of webhook_data)) seen)).
Proof.
  intros Hc Hin. unfold process_waha_message. rewrite Hc. cbn [negb].
  unfold answer_message, prelude, remember_id, final_chat_id, prepend.
  set (mid := m_id (payload_of webhook_data)).
  set (chat := resolve_chat_id _ _).
  unfold mark_as_read, try_except, bind, get, put, emit, ret, raise.
  rewrite bool_decide_eq_false_2 by exact Hin.
  destruct (1000 <? size ({[mid]} ∪ seen))%nat;
    destruct (is_internal_id chat);
    rewrite ?map_run; cbn [app fst snd];
    destruct (respond _ _ _ _ _) as [[[[]|e] s1] t1]; cbn [app fst snd].
  all: try (destruct (recover _ _ _ _) as [[r s2] t2]; cbn [app fst snd]).
  all: rewrite <- ?app_assoc; cbn [app].
  all: reflexivity.
Qed.

(** *** Trimming *)

Lemma dropwhile_app_stop p l c r :
  p c = false → dropwhile p (l ++ c :: r) = dropwhile p l ++ c :: r.
Proof.
  intros Hc. induction l as [|d l IH]; simpl.
  - rewrite Hc. reflexivity.
  - destruct (p d); [exact IH | reflexivity].
Qed.

Lemma dropwhile_stop p c l : p c = false → dropwhile p (c :: l) = c :: l.
Proof. intros Hc. simpl. rewrite Hc. reflexivity. Qed.

(** A text that begins with a character that is not white space keeps
    it, and is trimmed at its end only. *)
Lemma strip_cons c s :
  isspace c = false → strip (c :: s) = c :: rstrip s.
Proof.
  intros Hc. unfold strip, lstrip, rstrip. simpl rev.
  replace (rev s ++ [c]) with (rev s ++ c :: []) by reflexivity.
  rewrite dropwhile_app_stop by exact Hc.
  rewrite rev_app_distr. simpl. rewrite Hc. reflexivity.
Qed.

Lemma rstrip_snoc s c :
  isspace c = false → rstrip (s ++ [c]) = s ++ [c].
Proof.
  intros Hc. unfold rstrip. rewrite rev_app_distr. simpl.
  rewrite Hc. simpl. rewrite rev_involutive. reflexivity.
Qed.

Lemma keyword_not_space c : c = 103 ∨ c = 71 → isspace c = false.
Proof. intros [-> | ->]; reflexivity. Qed.

Lemma keyword_text_not_blank text :
  starts_with_keyword text → strip text ≠ [].
Proof.
  intros (c1 & c2 & rest & -> & H1 & _).
  rewrite strip_cons by (apply keyword_not_space; exact H1). discriminate.
Qed.

(** *** The reply stages *)

Lemma recover_run env webhook_data e s :
  recover env webhook_data e s =
    (Returns tt, s, recover_trace env webhook_data e).
Proof.
  unfold recover, recover_trace. set (msg := payload_of webhook_data).
  set (chat := resolve_chat_id _ _).
  unfold bind at 1. unfold emit at 1. unfold try_except.
  destruct (truthy chat).
  - rewrite send_text_message_run. fold (quoted (m_id msg)).
    destruct (post_send_text env chat error_message (quoted (m_id msg)))
      as [[]|e']; reflexivity.
  - reflexivity.
Qed.

Lemma respond_triggered env msg message_id chat_id s :
  triggers msg →
  respond env msg message_id chat_id s =
    triggered_run env msg message_id chat_id s.
Proof.
  intros (Htype & Hkey & Hrest). unfold respond, triggered_run, instruction.
  set (body := default [] (m_body msg)) in *.
  rewrite bool_decide_eq_true_2 by exact Htype. cbn [negb].
  rewrite bool_decide_eq_false_2 by (apply keyword_text_not_blank; exact Hkey).
  apply trigger_spec in Hkey. rewrite Hkey. cbn [negb].
  rewrite bool_decide_eq_false_2 by exact Hrest.
  unfold bind, emit, answer, try_except, ret, raise.
  destruct (execute_crew_task env (strip (drop 2 body))) as [out|e];
    [|reflexivity].
  fold (shaped_response (response_text_of out)).
  destruct (max_response_length <? length (response_text_of out))%nat;
    cbn [app fst snd];
    rewrite send_text_message_run; fold (quoted message_id);
    destruct (post_send_text env chat_id _ (quoted message_id)) as [[]|e];
    reflexivity.
Qed.

Lemma respond_untriggered env msg message_id chat_id s :
  ¬ triggers msg →
  ∃ r, respond env msg message_id chat_id s = (Returns tt, s, [Log Info r]).
Proof.
  intros Hno. unfold respond.
  set (body := default [] (m_body msg)) in *.
  destruct (bool_decide (default (py "chat") (m_type msg) ∈ [py "text"; py "chat"]))
    eqn:Htype; cbn [negb]; [|eauto].
  destruct (bool_decide (strip body = [])) eqn:Hblank; [eauto|].
  destruct (startswith (lower body) (py "gg")) eqn:Hkey; cbn [negb]; [|eauto].
  destruct (bool_decide (strip (drop 2 body) = [])) eqn:Hrest; [eauto|].
  exfalso. apply Hno. split; [|split].
  - apply bool_decide_eq_true in Htype. exact Htype.
  - apply trigger_spec. exact Hkey.
  - apply bool_decide_eq_false in Hrest. exact Hrest.
Qed.

Lemma triggers_dec msg : triggers msg ∨ ¬ triggers msg.
Proof.
  unfold triggers.
  destruct (decide (default (py "chat") (m_type msg) ∈ [py "text"; py "chat"]));
    [|tauto].
  destruct (startswith (lower (default [] (m_body msg))) (py "gg")) eqn:Hkey.
  - apply trigger_spec in Hkey.
    destruct (decide (strip (drop 2 (default [] (m_body msg))) = [])); tauto.
  - right. intros (_ & H & _). apply trigger_spec in H. congruence.
Qed.

(** The reply stages never raise and leave the registry as it is. *)
Lemma answer_message_run env webhook_data s :
  let msg := payload_of webhook_data in
  ∃ t, answer_message env webhook_data s = (Returns tt, s, t) ∧
       ((¬ triggers msg ∧ ∃ r, t = [Log Info r]) ∨
        (triggers msg ∧
         match triggered_run env msg (m_id msg) (final_chat_id webhook_data) s with
         | (Returns _, _, t1) => t = t1
         | (Raises e, _, t1) => t = t1 ++ recover_trace env webhook_data e
         end)).
Proof.
  intros msg. unfold answer_message, try_except. fold msg.
  destruct (triggers_dec msg) as [Hyes|Hno].
  - rewrite respond_triggered by exact Hyes.
    assert (Hst : (triggered_run env msg (m_id msg) (final_chat_id webhook_data) s).1.2 = s).
    { unfold triggered_run. destruct (execute_crew_task _ _); [|reflexivity].
      destruct (post_send_text _ _ _ _) as [[]|]; reflexivity. }
    destruct (triggered_run _ _ _ _ _) as [[[[]|e] s1] t1]; simpl in Hst; subst s1.
    + eexists. split; [reflexivity|]. right. split; [exact Hyes | reflexivity].
    + rewrite recover_run. eexists. split; [reflexivity|].
      right. split; [exact Hyes | reflexivity].
  - destruct (respond_untriggered env msg (m_id msg) (final_chat_id webhook_data) s Hno)
      as [r ->].
    eexists. split; [reflexivity|]. left. eauto.
Qed.

(** *** What the traces hold *)

Lemma executions_app t1 t2 : executions (t1 ++ t2) = executions t1 ++ executions t2.
Proof. apply omap_app. Qed.

Lemma sends_app t1 t2 : sends (t1 ++ t2) = sends t1 ++ sends t2.
Proof. apply omap_app. Qed.

Lemma logs_executions t :
  Forall (λ ev, is_log ev = true) t → executions t = [].
Proof.
  induction 1 as [|ev t Hev _ IH]; [reflexivity|].
  destruct ev; try discriminate Hev. exact IH.
Qed.

Lemma logs_sends t :
  Forall (λ ev, is_log ev = true) t → sends t = [].
Proof.
  induction 1 as [|ev t Hev _ IH]; [reflexivity|].
  destruct ev; try discriminate Hev. exact IH.
Qed.

Lemma quiet_iff t : quiet t ↔ executions t = [] ∧ sends t = [].
Proof.
  unfold quiet. induction t as [|ev t IH].
  - split; [auto | intros _ ev Hev; inversion Hev].
  - split.
    + intros H.
      destruct (H ev) as [He Hs]; [left|].
      destruct IH as [IH _].
      destruct IH as [IHe IHs]; [intros ev' Hev'; apply H; by right|].
      destruct ev; try discriminate He; try discriminate Hs; auto.
    + intros [He Hs] ev' Hev'.
      destruct ev; try discriminate He; try discriminate Hs;
        (apply elem_of_cons in Hev' as [-> | Hev'];
         [split; reflexivity | apply IH; [split; assumption | exact Hev']]).
Qed.

Lemma mapping_log_logs internal_id webhook_data :
  Forall (λ ev, is_log ev = true) (mapping_log internal_id webhook_data).
Proof.
  unfold mapping_log. destruct (find_known_group _ _) as [[n g]|].
  - repeat constructor.
  - destruct (first_group_id _); repeat constructor.
Qed.

Lemma prelude_logs webhook_data seen :
  Forall (λ ev, is_log ev = true) (prelude webhook_data seen).
Proof.
  unfold prelude. apply Forall_app. split.
  - destruct (_ <? _)%nat; repeat constructor.
  - apply Forall_app. split; [|repeat constructor].
    destruct (is_internal_id _); [apply mapping_log_logs | constructor].
Qed.

Lemma recover_trace_executions env webhook_data e :
  executions (recover_trace env webhook_data e) = [].
Proof.
  unfold recover_trace. destruct (truthy _); [|reflexivity].
  destruct (post_send_text _ _ _ _) as [[]|]; reflexivity.
Qed.

Lemma triggered_run_executions env msg message_id chat_id s :
  executions (triggered_run env msg message_id chat_id s).2 = [instruction msg].
Proof.
  unfold triggered_run. destruct (execute_crew_task _ _) as [out|e]; [|reflexivity].
  destruct (post_send_text _ _ _ _) as [[]|]; simpl;
    destruct (_ <? _)%nat; reflexivity.
Qed.

(** The trace of a message that is not a duplicate, by whether it passes
    the filters. *)
Lemma process_fresh_trace env webhook_data seen :
  waha_client env = true →
  m_id (payload_of webhook_data) ∉ seen →
  let msg := payload_of webhook_data in
  let t := trace_of (process_waha_message env webhook_data seen) in
  result_of (process_waha_message env webhook_data seen) = Returns tt ∧
  state_of (process_waha_message env webhook_data seen) =
    remember_id (m_id msg) seen ∧
  ((¬ triggers msg ∧ ∃ r, t = prelude webhook_data seen ++ [Log Info r]) ∨
   (triggers msg ∧
    match triggered_run env msg (m_id msg) (final_chat_id webhook_data)
            (remember_id (m_id msg) seen) with
    | (Returns _, _, t1) => t = prelude webhook_data seen ++ t1
    | (Raises e, _, t1) =>
        t = prelude webhook_data seen ++ t1 ++ recover_trace env webhook_data e
    end)).
Proof.
  intros Hc Hin msg t. subst t msg.
  rewrite process_fresh by assumption.
  destruct (answer_message_run env webhook_data
              (remember_id (m_id (payload_of webhook_data)) seen))
    as (t & -> & Hcase).
  split; [reflexivity|]. split; [reflexivity|].
  unfold prepend, trace_of. simpl.
  destruct Hcase as [[Hno [r ->]] | [Hyes Ht]].
  - left. eauto.
  - right. split; [exact Hyes|].
    destruct (triggered_run _ _ _ _ _) as [[[[]|e] s1] t1]; subst t; reflexivity.
Qed.

(** *** C5: the trigger keyword *)

(** C5.  A message whose text does not begin with the keyword, in
    either case, leads to no task execution and to no send; so does one
    of which nothing is left once the keyword is cut off and the rest
    trimmed.  A text message that is not a duplicate, begins with the
    keyword and has something left is executed once, on the trimmed
    rest; and no other instruction ever reaches the task executor. *)
Theorem trigger_gating env webhook_data seen :
  let msg := payload_of webhook_data in
  let body := default [] (m_body msg) in
  let t := trace_of (process_waha_message env webhook_data seen) in
  (¬ starts_with_keyword body → quiet t) ∧
  (starts_with_keyword body → strip (drop 2 body) = [] → quiet t) ∧
  (waha_client env = true → m_id msg ∉ seen →
   default (py "chat") (m_type msg) ∈ [py "text"; py "chat"] →
   starts_with_keyword body → strip (drop 2 body) ≠ [] →
   executions t = [strip (drop 2 body)]) ∧
  (∀ i, i ∈ executions t → i = strip (drop 2 body)).
Proof.
  intros msg body t.
  assert (Hquiet : ¬ triggers msg → quiet t).
  { intros Hno. apply quiet_iff. subst t.
    destruct (waha_client env) eqn:Hc.
    - destruct (decide (m_id msg ∈ seen)) as [Hin|Hin].
      + rewrite process_duplicate by assumption. split; reflexivity.
      + destruct (process_fresh_trace env webhook_data seen Hc Hin)
          as (_ & _ & [[_ [r ->]] | [Hyes _]]); [|contradiction].
        rewrite executions_app, sends_app.
        rewrite logs_executions, logs_sends by apply prelude_logs.
        split; reflexivity.
    - rewrite process_no_client by assumption. split; reflexivity. }
  assert (Hexec : triggers msg → waha_client env = true → m_id msg ∉ seen →
                  executions t = [instruction msg]).
  { intros Hyes Hc Hin. subst t.
    destruct (process_fresh_trace env webhook_data seen Hc Hin)
      as (_ & _ & [[Hno _] | [_ Ht]]); [contradiction|].
    pose proof (triggered_run_executions env msg (m_id msg)
                  (final_chat_id webhook_data) (remember_id (m_id msg) seen)) as He.
    fold msg in Ht.
    destruct (triggered_run _ _ _ _ _) as [[[[]|e] s1] t1]; simpl in He;
      rewrite Ht, !executions_app, He,
        ?recover_trace_executions, logs_executions by apply prelude_logs;
      reflexivity. }
  split; [|split; [|split]].
  - intros Hkey. apply Hquiet. intros (_ & H & _). contradiction.
  - intros _ Hrest. apply Hquiet. intros (_ & _ & H). contradiction.
  - intros Hc Hin Htype Hkey Hrest. apply Hexec; [|assumption|assumption].
    split; [|split]; assumption.
  - intros i Hi.
    destruct (triggers_dec msg) as [Hyes|Hno].
    + destruct (waha_client env) eqn:Hc.
      * destruct (decide (m_id msg ∈ seen)) as [Hin|Hin].
        -- subst t. rewrite process_duplicate in Hi by assumption.
           inversion Hi.
        -- rewrite Hexec in Hi by (assumption || reflexivity).
           apply list_elem_of_singleton in Hi. exact Hi.
      * subst t. rewrite process_no_client in Hi by assumption. inversion Hi.
    + apply Hquiet, quiet_iff in Hno as [He _]. rewrite He in Hi. inversion Hi.
Qed.

(** *** C3: the priority of the chat identifier *)





(** On a message that passes the filters and that the executor answers,
    the reply is posted, to the identifier of the main path. *)
Lemma process_replies env webhook_data seen out :
  let msg := payload_of webhook_data in
  waha_client env = true →
  m_id msg ∉ seen →
  triggers msg →
  execute_crew_task env (instruction msg) = Returns out →
  (final_chat_id webhook_data, shaped_response (response_text_of out),
   quoted (m_id msg))
    ∈ sends (trace_of (process_waha_message env webhook_data seen)).
Proof.
  intros msg Hc Hin Hyes Hexec.
  destruct (process_fresh_trace env webhook_data seen Hc Hin)
    as (_ & _ & [[Hno _] | [_ Ht]]); [contradiction|].
  fold msg in Ht. unfold triggered_run in Ht. rewrite Hexec in Ht.
  destruct (post_send_text _ _ _ _) as [[]|e]; rewrite Ht;
    rewrite !sends_app, logs_sends by apply prelude_logs;
    destruct (_ <? _)%nat; cbn; left.
Qed.




Lemma trigger_gating_witness :
  let webhook_data :=
    text_message (Some (py "m1")) (Some (py "1@c.us")) (Some (py "2@c.us"))
      (py "GG  hi there ") [] in
  let env := chat_env (says (py "ok")) in
  starts_with_keyword (py "GG  hi there ") ∧
  executions (trace_of (process_waha_message env webhook_data ∅)) =
    [py "hi there"].
Proof.
  intros webhook_data env.
  assert (Hkey : starts_with_keyword (py "GG  hi there ")).
  { exists 71, 71, (py "  hi there "). repeat split; auto. }
  split; [exact Hkey|].
  destruct (trigger_gating env webhook_data ∅) as (_ & _ & Hrun & _).
  apply Hrun.
  - reflexivity.
  - apply not_elem_of_empty.
  - apply list_elem_of_In. vm_compute. auto.
  - exact Hkey.
  - vm_compute. discriminate.
Defined.

(** *** C10: the read receipt *)

Lemma logs_no_receipt t :
  Forall (λ ev, is_log ev = true) t →
  Forall (λ ev, is_read_receipt ev = false) t.
Proof.
  intros H. eapply Forall_impl; [exact H|].
  intros ev Hev. destruct ev; try discriminate Hev; reflexivity.
Qed.

Lemma recover_trace_no_receipt env webhook_data e :
  Forall (λ ev, is_read_receipt ev = false) (recover_trace env webhook_data e).
Proof.
  unfold recover_trace. constructor; [reflexivity|].
  destruct (truthy _); [|constructor].
  destruct (post_send_text _ _ _ _) as [[]|]; repeat constructor.
Qed.

Lemma triggered_run_no_receipt env msg message_id chat_id s :
  Forall (λ ev, is_read_receipt ev = false)
    (triggered_run env msg message_id chat_id s).2.
Proof.
  unfold triggered_run.
  destruct (execute_crew_task _ _) as [out|e]; [|repeat constructor].
  destruct (post_send_text _ _ _ _) as [[]|]; simpl;
    destruct (_ <? _)%nat; repeat constructor.
Qed.

(** No run of the pipeline posts a read receipt. *)
Lemma process_no_receipt env webhook_data seen :
  Forall (λ ev, is_read_receipt ev = false)
    (trace_of (process_waha_message env webhook_data seen)).
Proof.
  destruct (waha_client env) eqn:Hc.
  - destruct (decide (m_id (payload_of webhook_data) ∈ seen)) as [Hin|Hin].
    + rewrite process_duplicate by assumption. repeat constructor.
    + destruct (process_fresh_trace env webhook_data seen Hc Hin)
        as (_ & _ & [[_ [r ->]] | [_ Ht]]).
      * apply Forall_app. split; [apply logs_no_receipt, prelude_logs|].
        repeat constructor.
      * pose proof (triggered_run_no_receipt env (payload_of webhook_data)
                      (m_id (payload_of webhook_data)) (final_chat_id webhook_data)
                      (remember_id (m_id (payload_of webhook_data)) seen)) as Hr.
        destruct (triggered_run _ _ _ _ _) as [[[[]|e] s1] t1]; simpl in Hr;
          rewrite Ht, ?Forall_app;
          auto using logs_no_receipt, prelude_logs, recover_trace_no_receipt.
  - rewrite process_no_client by assumption. repeat constructor.
Qed.

(** C10.  On every message that is processed (the client is there and
    the message is not a duplicate) the call that marks it as read
    raises before any request is made, since it passes two arguments to
    a method of one parameter; the exception is logged as a warning and
    the pipeline goes on with the stages that follow and returns; and no
    run at all posts a read receipt. *)
Theorem read_receipt_attempt env webhook_data seen :
  let message_id := m_id (payload_of webhook_data) in
  let r := process_waha_message env webhook_data seen in
  (∀ ev, ev ∈ trace_of r → is_read_receipt ev = false) ∧
  (waha_client env = true → message_id ∉ seen →
   (∀ s, mark_as_read env [message_id; final_chat_id webhook_data] s =
           (Raises arity_error, s, [])) ∧
   Log Warning (CouldNotMarkAsRead arity_error) ∈ trace_of r ∧
   r = prepend (prelude webhook_data seen)
         (answer_message env webhook_data (remember_id message_id seen)) ∧
   result_of r = Returns tt).
Proof.
  intros message_id r. split.
  - apply Forall_forall, process_no_receipt.
  - intros Hc Hin. subst r message_id.
    split; [intros s; apply mark_as_read_two|].
    rewrite process_fresh by assumption.
    destruct (answer_message_run env webhook_data
                (remember_id (m_id (payload_of webhook_data)) seen))
      as (t & Ht & _).
    rewrite Ht. unfold prepend, trace_of, result_of. simpl.
    split; [|split; reflexivity].
    apply elem_of_app. left. unfold prelude.
    rewrite !elem_of_app. right. right. left.
Qed.

Lemma read_receipt_attempt_witness :
  let webhook_data :=
    text_message (Some (py "m1")) (Some (py "1@c.us")) (Some (py "2@c.us"))
      (py "gg hi") [] in
  let env := chat_env (says (py "ok")) in
  waha_client env = true ∧
  (Some (py "m1") ∉ (∅ : gset (option pystr))) ∧
  Log Warning (CouldNotMarkAsRead arity_error)
    ∈ trace_of (process_waha_message env webhook_data ∅).
Proof.
  intros webhook_data env.
  split; [reflexivity|]. split; [apply not_elem_of_empty|].
  destruct (read_receipt_attempt env webhook_data ∅) as [_ Hrun].
  destruct Hrun as (_ & Hlog & _); [reflexivity | apply not_elem_of_empty |].
  exact Hlog.
Defined.

(** *** C2: the registry of processed messages *)

(** The registry after one event. *)
Lemma process_state env webhook_data seen :
  waha_client env = true →
  state_of (process_waha_message env webhook_data seen) =
    if decide (m_id (payload_of webhook_data) ∈ seen) then seen
    else remember_id (m_id (payload_of webhook_data)) seen.
Proof.
  intros Hc. destruct (decide _) as [Hin|Hin].
  - rewrite process_duplicate by assumption. reflexivity.
  - apply (process_fresh_trace env webhook_data seen Hc Hin).
Qed.

Lemma remember_id_below (message_id : option pystr) (seen : gset (option pystr)) :
  message_id ∉ seen → (size seen < 1000)%nat →
  remember_id message_id seen = {[ message_id ]} ∪ seen.
Proof.
  intros Hin Hsize. unfold remember_id.
  rewrite size_union, size_singleton by (apply disjoint_singleton_l; exact Hin).
  destruct (Nat.ltb_spec 1000 (1 + size seen)); [lia | reflexivity].
Qed.

Lemma remember_id_full (message_id : option pystr) (seen : gset (option pystr)) :
  message_id ∉ seen → size seen = 1000%nat →
  remember_id message_id seen = ∅.
Proof.
  intros Hin Hsize. unfold remember_id.
  rewrite size_union, size_singleton, Hsize
    by (apply disjoint_singleton_l; exact Hin).
  reflexivity.
Qed.

(** Below the cap the registry holds every identifier it was given. *)
Lemma registry_after_below env events seen :
  waha_client env = true →
  NoDup (message_ids events) →
  (∀ i, i ∈ message_ids events → i ∉ seen) →
  (size seen + length events ≤ 1000)%nat →
  registry_after env events seen = list_to_set (message_ids events) ∪ seen.
Proof.
  intros Hc. revert seen.
  induction events as [|webhook_data events IH]; intros seen Hnd Hfresh Hsize.
  - unfold registry_after. simpl. by rewrite union_empty_l_L.
  - simpl in *. apply NoDup_cons in Hnd as [Hhd Hnd].
    set (mid := m_id (payload_of webhook_data)) in *.
    assert (Hin : mid ∉ seen) by (apply Hfresh; left).
    unfold registry_after in *. simpl.
    rewrite process_state by exact Hc. fold mid.
    destruct (decide (mid ∈ seen)) as [?|_]; [contradiction|].
    rewrite remember_id_below by (assumption || lia).
    rewrite IH.
    + rewrite (assoc_L (∪)), (comm_L (∪) _ {[mid]}). reflexivity.
    + exact Hnd.
    + intros i Hi. apply not_elem_of_union. split.
      * intros ->%elem_of_singleton. contradiction.
      * apply Hfresh. by right.
    + rewrite size_union, size_singleton
        by (apply disjoint_singleton_l; exact Hin).
      lia.
Qed.

(** The identifier that takes the registry over the cap is dropped with
    the others. *)
Lemma registry_after_overflow env front last :
  waha_client env = true →
  NoDup (message_ids (front ++ [last])) →
  length front = 1000%nat →
  registry_after env (front ++ [last]) ∅ = ∅.
Proof.
  intros Hc Hnd Hlen. unfold registry_after. rewrite fold_left_app. simpl.
  fold (registry_after env front ∅).
  unfold message_ids in Hnd. rewrite map_app in Hnd. simpl in Hnd.
  apply NoDup_app in Hnd as (Hfront & Hlast & _).
  fold (message_ids front) in Hfront, Hlast.
  rewrite registry_after_below;
    [ | exact Hc | exact Hfront | intros; apply not_elem_of_empty
      | rewrite size_empty; lia ].
  rewrite process_state by exact Hc.
  set (mid := m_id (payload_of last)) in *.
  assert (Hin : mid ∉ (list_to_set (message_ids front) ∪ ∅ : gset (option pystr))).
  { rewrite elem_of_union, elem_of_list_to_set.
    intros [H|H]; [|exact (not_elem_of_empty _ H)].
    apply (Hlast mid H). left. }
  destruct (decide _) as [?|_]; [contradiction|].
  apply remember_id_full; [exact Hin|].
  rewrite union_empty_r_L, size_list_to_set by exact Hfront.
  unfold message_ids. rewrite length_map. exact Hlen.
Qed.

(** A message whose identifier is in the registry is skipped: nothing is
    executed and nothing is sent. *)
Lemma duplicate_skipped env webhook_data seen :
  m_id (payload_of webhook_data) ∈ seen →
  let r := process_waha_message env webhook_data seen in
  result_of r = Returns tt ∧ state_of r = seen ∧ quiet (trace_of r).
Proof.
  intros Hin r. subst r. destruct (waha_client env) eqn:Hc.
  - rewrite process_duplicate by assumption.
    split; [reflexivity|]. split; [reflexivity|].
    apply quiet_iff; split; reflexivity.
  - rewrite process_no_client by assumption.
    split; [reflexivity|]. split; [reflexivity|].
    apply quiet_iff; split; reflexivity.
Qed.

Lemma numbered_ids n :
  message_ids (map numbered (seq 0 n)) = (λ k, Some [N.of_nat k]) <$> seq 0 n.
Proof. unfold message_ids. rewrite map_map. reflexivity. Qed.

(** C2 on the code.  After 1001 messages with distinct identifiers the
    registry is empty: the clearing of line 412 runs after the 1001st
    identifier was added and removes it too.  Delivered again, the
    1001st message is executed a second time. *)
Theorem registry_drops_overflowing_id :
  let env := chat_env (says (py "ok")) in
  let events := map numbered (seq 0 1001) in
  let registry := registry_after env events ∅ in
  NoDup (message_ids events) ∧
  length events = 1001%nat ∧
  registry = ∅ ∧
  (m_id (payload_of (numbered 1000)) ∉ registry) ∧
  executions (trace_of (process_waha_message env (numbered 1000) registry)) =
    [py "hi"].
Proof.
  intros env events registry.
  assert (Hnd : NoDup (message_ids events)).
  { subst events. rewrite numbered_ids. apply NoDup_fmap_2; [|apply NoDup_seq].
    intros a b [= H]. lia. }
  assert (Hempty : registry = ∅).
  { subst registry events.
    change 1001%nat with (S 1000) in *. rewrite seq_S, map_app in *.
    apply registry_after_overflow; [reflexivity | exact Hnd |].
    rewrite length_map, length_seq. reflexivity. }
  split; [exact Hnd|].
  split; [subst events; by rewrite length_map, length_seq|].
  split; [exact Hempty|]. rewrite Hempty.
  split; [apply not_elem_of_empty|].
  vm_compute. reflexivity.
Qed.

(** *** C9: the reply after a failure *)

(** C9 on the code.  The event resolves to the internal identifier
    abc123, which the main path remaps to the group of the known name;
    the task executor raises; the handler catches the exception and
    sends its apology, quoting the message, to abc123 and not to the
    remapped destination. *)
Theorem apology_skips_remapping :
  let env := chat_env (Raises executor_failure) in
  let r := process_waha_message env internal_event ∅ in
  final_chat_id internal_event = Some (py "120363422170611614@g.us") ∧
  result_of r = Returns tt ∧
  executions (trace_of r) = [py "hi"] ∧
  sends (trace_of r) = [(Some (py "abc123"), error_message, Some (py "m1"))].
Proof. vm_compute. repeat split; reflexivity. Qed.

(** The same event when the task executor answers: the reply goes to the
    remapped destination. *)
Lemma reply_follows_remapping :
  let env := chat_env (says (py "ok")) in
  let r := process_waha_message env internal_event ∅ in
  sends (trace_of r) =
    [(Some (py "120363422170611614@g.us"), shaped_response (py "ok"),
      Some (py "m1"))].
Proof. vm_compute. reflexivity. Qed.

(** *** C7: remapping of internal identifiers *)

Lemma takewhile_app_stop p ds c r :
  Forall (λ x, p x = true) ds → p c = false →
  takewhile p (ds ++ c :: r) = ds.
Proof.
  intros Hds Hc. induction Hds as [|d ds Hd _ IH]; simpl.
  - rewrite Hc. reflexivity.
  - rewrite Hd, IH. reflexivity.
Qed.

Lemma takewhile_prefix p s :
  ∃ rest, s = takewhile p s ++ rest ∧ Forall (λ x, p x = true) (takewhile p s).
Proof.
  induction s as [|c s (rest & IH & Hall)]; simpl.
  - exists []. split; [reflexivity | constructor].
  - destruct (p c) eqn:Hc.
    + exists rest. split; [simpl; congruence | constructor; assumption].
    + exists (c :: s). split; [reflexivity | constructor].
Qed.

Lemma match_group_id_sound s m :
  match_group_id s = Some m → group_id_shape m ∧ ∃ post, s = m ++ post.
Proof.
  unfold match_group_id.
  destruct (takewhile_prefix isdigit s) as (rest & Hs & Hall).
  destruct (takewhile isdigit s) as [|d ds] eqn:Htw; [discriminate|].
  destruct (startswith _ _) eqn:Hst; [|discriminate].
  intros [= <-]. split.
  - exists (d :: ds). split; [discriminate | split; [exact Hall | reflexivity]].
  - apply startswith_spec in Hst as [post Hpost].
    exists post. rewrite Hs at 1.
    rewrite Hs, drop_app_length in Hpost. rewrite Hpost.
    simpl. rewrite <- app_assoc. reflexivity.
Qed.

Lemma match_group_id_complete m post :
  group_id_shape m → match_group_id (m ++ post) = Some m.
Proof.
  intros (ds & Hne & Hall & ->). unfold match_group_id.
  rewrite <- app_assoc.
  change (py "@g.us" ++ post) with (64 :: py "g.us" ++ post).
  rewrite takewhile_app_stop by (exact Hall || reflexivity).
  destruct ds as [|d ds]; [contradiction|].
  rewrite drop_app_length.
  change (64 :: py "g.us" ++ post) with (py "@g.us" ++ post).
  assert (startswith (py "@g.us" ++ post) (py "@g.us") = true) as ->
    by (apply startswith_spec; eauto).
  reflexivity.
Qed.

(** The search of line 377 returns the leftmost match, and returns
    nothing only when no part of the text matches. *)
Lemma first_group_id_spec s :
  match first_group_id s with
  | Some m => first_match m s
  | None => ∀ pre m post, s = pre ++ m ++ post → ¬ group_id_shape m
  end.
Proof.
  induction s as [|c s IH]; simpl.
  - intros pre m post Hs (ds & _ & _ & ->).
    destruct pre; [|discriminate Hs]. destruct ds; discriminate Hs.
  - destruct (match_group_id (c :: s)) as [m|] eqn:Hm.
    + apply match_group_id_sound in Hm as [Hshape [post Hs]].
      exists [], post.
      split; [exact Hs|]. split; [exact Hshape|]. intros; simpl; lia.
    + destruct (first_group_id s) as [m|].
      * destruct IH as (pre & post & -> & Hshape & Hleft).
        exists (c :: pre), post.
        split; [reflexivity|]. split; [exact Hshape|].
        intros pre' m' post' Hs' Hshape'.
        destruct pre' as [|x pre'].
        -- simpl in Hs'.
           rewrite Hs', match_group_id_complete in Hm by exact Hshape'.
           discriminate Hm.
        -- injection Hs' as _ Hs'. simpl.
           specialize (Hleft pre' m' post' Hs' Hshape'). lia.
      * intros pre m post Hs Hshape.
        destruct pre as [|x pre].
        -- simpl in Hs.
           rewrite Hs, match_group_id_complete in Hm by exact Hshape.
           discriminate Hm.
        -- injection Hs as _ Hs. exact (IH pre m post Hs Hshape).
Qed.

(** The loop over the table returns the first entry whose name occurs. *)
Lemma find_known_group_first groups ws before name gid after :
  groups = before ++ (name, gid) :: after →
  occurs_in (lower name) ws →
  (∀ n g, (n, g) ∈ before → ¬ occurs_in (lower n) ws) →
  find_known_group groups ws = Some (name, gid).
Proof.
  intros -> Hin Hbefore. induction before as [|[n g] before IH]; simpl.
  - apply contains_spec in Hin. rewrite Hin. reflexivity.
  - destruct (contains ws (lower n)) eqn:Hn.
    + apply contains_spec in Hn. exfalso. apply (Hbefore n g); [left | exact Hn].
    + apply IH. intros n' g' H'. apply (Hbefore n' g'). by right.
Qed.

Lemma find_known_group_none groups ws :
  (∀ n g, (n, g) ∈ groups → ¬ occurs_in (lower n) ws) →
  find_known_group groups ws = None.
Proof.
  induction groups as [|[n g] groups IH]; intros Hnone; simpl; [reflexivity|].
  destruct (contains ws (lower n)) eqn:Hn.
  - apply contains_spec in Hn. exfalso. apply (Hnone n g); [left | exact Hn].
  - apply IH. intros n' g' H'. apply (Hnone n' g'). by right.
Qed.

Lemma find_known_group_none_inv groups ws :
  find_known_group groups ws = None →
  ∀ n g, (n, g) ∈ groups → ¬ occurs_in (lower n) ws.
Proof.
  induction groups as [|[n0 g0] groups IH]; simpl; intros Hnone n g Hin.
  - inversion Hin.
  - destruct (contains ws (lower n0)) eqn:Hn; [discriminate Hnone|].
    apply elem_of_cons in Hin as [[= -> ->] | Hin].
    + rewrite <- contains_spec, Hn. discriminate.
    + exact (IH Hnone n g Hin).
Qed.

Lemma is_internal_id_spec s :
  is_internal_id (Some s) = true ↔
  s ≠ [] ∧ (¬ ∃ front, s = front ++ py "@c.us")
         ∧ (¬ ∃ front, s = front ++ py "@g.us").
Proof.
  unfold is_internal_id, endswith_any. cbn [existsb].
  rewrite orb_false_r, andb_true_iff, negb_true_iff, orb_false_iff.
  rewrite <- !not_true_iff_false, !endswith_spec.
  destruct s; simpl; split; intros (H1 & H2 & H3); auto; try discriminate;
    try contradiction.
Qed.

(** C7, as amended.  Whenever the resolved chat identifier is a string
    that is not empty and ends with neither the individual nor the group
    domain suffix, the main path replaces it by what the mapping
    returns, and the mapping never raises: (a) it returns the identifier
    of the first group of the table whose name, lowered, occurs in the
    lowered serialized event; else (b) the leftmost part of the
    serialized event of the shape digits-and-group-domain, the digits
    being those of any script; else (c) the identifier as it was, with a
    warning logged.  In [process_waha_message], on a message that is not
    a duplicate, the records of the mapping are in the trace, the run
    returns, and the reply to a message that passes the filters is
    posted to the identifier so mapped. *)
Theorem internal_id_remapping webhook_data s :
  resolve_chat_id (m_from (payload_of webhook_data))
    (m_to (payload_of webhook_data)) = Some s →
  s ≠ [] →
  (¬ ∃ front, s = front ++ py "@c.us") →
  (¬ ∃ front, s = front ++ py "@g.us") →
  let ws := lower (serialized webhook_data) in
  final_chat_id webhook_data = Some (mapped_id s webhook_data) ∧
  (∀ st, map_waha_internal_id_to_group_id s webhook_data st =
           (Returns (mapped_id s webhook_data), st, mapping_log s webhook_data)) ∧
  (∀ before name gid after,
     known_groups = before ++ (name, gid) :: after →
     occurs_in (lower name) ws →
     (∀ n g, (n, g) ∈ before → ¬ occurs_in (lower n) ws) →
     mapped_id s webhook_data = gid) ∧
  (no_known_group ws →
   ∀ m, first_match m (serialized webhook_data) →
        mapped_id s webhook_data = m) ∧
  (no_known_group ws →
   (∀ pre m post, serialized webhook_data = pre ++ m ++ post →
                  ¬ group_id_shape m) →
   mapped_id s webhook_data = s ∧
   mapping_log s webhook_data = [Log Warning (CouldNotMap s)]) ∧
  (∀ env seen,
     let msg := payload_of webhook_data in
     let r := process_waha_message env webhook_data seen in
     waha_client env = true → m_id msg ∉ seen →
     result_of r = Returns tt ∧
     (∀ ev, ev ∈ mapping_log s webhook_data → ev ∈ trace_of r) ∧
     (triggers msg →
      ∀ out, execute_crew_task env (instruction msg) = Returns out →
             (Some (mapped_id s webhook_data),
              shaped_response (response_text_of out), quoted (m_id msg))
               ∈ sends (trace_of r))).
Proof.
  intros Hres Hne Hc Hg ws.
  assert (Hinternal : is_internal_id (Some s) = true)
    by (apply is_internal_id_spec; auto).
  assert (Hfinal : final_chat_id webhook_data = Some (mapped_id s webhook_data)).
  { unfold final_chat_id. rewrite Hres, Hinternal. reflexivity. }
  split; [|split; [|split; [|split; [|split]]]].
  - exact Hfinal.
  - intros st. apply map_run.
  - intros before name gid after Htable Hin Hbefore.
    unfold mapped_id. fold ws.
    erewrite find_known_group_first by eassumption. reflexivity.
  - intros Hnone m Hm. unfold mapped_id. fold ws.
    rewrite find_known_group_none by exact Hnone.
    pose proof (first_group_id_spec (serialized webhook_data)) as Hspec.
    destruct (first_group_id (serialized webhook_data)) as [m0|].
    + destruct Hspec as (pre0 & post0 & Hs0 & Hshape0 & Hleft0).
      destruct Hm as (pre & post & Hs & Hshape & Hleft).
      pose proof (Hleft0 pre m post Hs Hshape) as H1.
      pose proof (Hleft pre0 m0 post0 Hs0 Hshape0) as H2.
      assert (Hlen : length pre0 = length pre) by lia.
      assert (Hdrop : m0 ++ post0 = m ++ post).
      { rewrite Hs in Hs0.
        apply (f_equal (drop (length pre))) in Hs0.
        rewrite drop_app_length in Hs0. rewrite <- Hlen in Hs0.
        rewrite drop_app_length in Hs0. congruence. }
      pose proof (match_group_id_complete m0 post0 Hshape0) as Hm0.
      rewrite Hdrop, match_group_id_complete in Hm0 by exact Hshape.
      congruence.
    + destruct Hm as (pre & post & Hs & Hshape & _).
      exfalso. exact (Hspec pre m post Hs Hshape).
  - intros Hnone Hnomatch. unfold mapped_id, mapping_log. fold ws.
    rewrite find_known_group_none by exact Hnone.
    pose proof (first_group_id_spec (serialized webhook_data)) as Hspec.
    destruct (first_group_id (serialized webhook_data)) as [m0|].
    + destruct Hspec as (pre0 & post0 & Hs0 & Hshape0 & _).
      exfalso. exact (Hnomatch pre0 m0 post0 Hs0 Hshape0).
    + split; reflexivity.
  - intros env seen msg r Hclient Hin. subst r.
    destruct (process_fresh_trace env webhook_data seen Hclient Hin)
      as (Hret & _ & Htrace).
    split; [exact Hret|]. split.
    + intros ev Hev.
      assert (Hpre : ev ∈ prelude webhook_data seen).
      { unfold prelude. rewrite Hres, Hinternal, !elem_of_app.
        right. left. exact Hev. }
      destruct Htrace as [[_ [rec ->]] | [_ Ht]].
      * apply elem_of_app. left. exact Hpre.
      * destruct (triggered_run _ _ _ _ _) as [[[[]|e] s1] t1];
          rewrite Ht; apply elem_of_app; left; exact Hpre.
    + intros Hyes out Hexec. rewrite <- Hfinal.
      apply process_replies; assumption.
Qed.

Lemma internal_id_remapping_witness :
  resolve_chat_id (m_from (payload_of internal_event))
    (m_to (payload_of internal_event)) = Some (py "abc123") ∧
  final_chat_id internal_event =
    Some (mapped_id (py "abc123") internal_event) ∧
  mapped_id (py "abc123") internal_event = py "120363422170611614@g.us" ∧
  resolve_chat_id (m_from (payload_of foreign_digits_event))
    (m_to (payload_of foreign_digits_event)) = Some (py "abc123") ∧
  mapped_id (py "abc123") foreign_digits_event = 1635 :: py "123@g.us".
Proof.
  assert (Hres : resolve_chat_id (m_from (payload_of internal_event))
                   (m_to (payload_of internal_event)) = Some (py "abc123"))
    by reflexivity.
  assert (Hres' : resolve_chat_id (m_from (payload_of foreign_digits_event))
                    (m_to (payload_of foreign_digits_event)) = Some (py "abc123"))
    by reflexivity.
  assert (Hne : py "abc123" ≠ []) by discriminate.
  assert (Hc : ¬ ∃ front, py "abc123" = front ++ py "@c.us").
  { intros H. apply endswith_spec in H. vm_compute in H. discriminate H. }
  assert (Hg : ¬ ∃ front, py "abc123" = front ++ py "@g.us").
  { intros H. apply endswith_spec in H. vm_compute in H. discriminate H. }
  destruct (internal_id_remapping internal_event (py "abc123") Hres Hne Hc Hg)
    as (Hfinal & _ & Hfirst & _ & _ & _).
  destruct (internal_id_remapping foreign_digits_event (py "abc123")
              Hres' Hne Hc Hg) as (_ & _ & _ & Hmatch & _ & _).
  split; [exact Hres|]. split; [exact Hfinal|]. split; [|split; [exact Hres'|]].
  - apply (Hfirst [] (py "nerds") (py "120363422170611614@g.us")
             (tl known_groups)).
    + reflexivity.
    + apply contains_spec. vm_compute. reflexivity.
    + intros n g H. inversion H.
  - apply Hmatch.
    + intros name gid. apply find_known_group_none_inv.
      vm_compute. reflexivity.
    + pose proof (first_group_id_spec (serialized foreign_digits_event)) as Hspec.
      assert (Hfound : first_group_id (serialized foreign_digits_event)
                       = Some (1635 :: py "123@g.us"))
        by (vm_compute; reflexivity).
      rewrite Hfound in Hspec. exact Hspec.
Defined.

(** C7, as stated, fails: the empty identifier ends with neither suffix
    and a known group name occurs in the serialized event, yet the
    identifier is not remapped. *)
Lemma empty_id_not_remapped :
  resolve_chat_id (m_from (payload_of empty_to_event))
    (m_to (payload_of empty_to_event)) = Some [] ∧
  endswith [] (py "@c.us") = false ∧
  endswith [] (py "@g.us") = false ∧
  occurs_in (lower (py "nerds")) (lower (serialized empty_to_event)) ∧
  mapped_id [] empty_to_event = py "120363422170611614@g.us" ∧
  final_chat_id empty_to_event = Some [] ∧
  final_chat_id empty_to_event ≠ Some (mapped_id [] empty_to_event).
Proof.
  repeat split; try reflexivity.
  - apply contains_spec. vm_compute. reflexivity.
  - vm_compute. discriminate.
Qed.

(** *** C6: the shape of the reply *)

Lemma elem_of_rev (x : N) (l : pystr) : x ∈ rev l ↔ x ∈ l.
Proof. rewrite !list_elem_of_In. symmetry. apply in_rev. Qed.

Lemma after_first_none c s : after_first c s = None → c ∉ s.
Proof.
  induction s as [|d s IH]; simpl; intros H.
  - apply not_elem_of_nil.
  - destruct (N.eqb_spec d c); [discriminate|].
    apply not_elem_of_cons. split; [congruence | auto].
Qed.

Lemma after_first_some c s r :
  after_first c s = Some r → ∃ pre, s = pre ++ c :: r ∧ c ∉ pre.
Proof.
  revert r. induction s as [|d s IH]; simpl; intros r H; [discriminate|].
  destruct (N.eqb_spec d c) as [->|Hne].
  - injection H as <-. exists []. split; [reflexivity | apply not_elem_of_nil].
  - destruct (IH r H) as (pre & -> & Hpre).
    exists (d :: pre). split; [reflexivity|].
    apply not_elem_of_cons. split; [congruence | exact Hpre].
Qed.

(** [s.rsplit(sep, 1)[0]] is [s] when the separator does not occur in it,
    and else what comes before its last occurrence. *)
Lemma rsplit1_head_spec sep s :
  ((sep ∉ s) ∧ rsplit1_head sep s = s) ∨
  (∃ tail, s = rsplit1_head sep s ++ sep :: tail ∧ sep ∉ tail).
Proof.
  unfold rsplit1_head. destruct (after_first sep (rev s)) as [r|] eqn:Hr.
  - right. apply after_first_some in Hr as (pre & Hrev & Hpre).
    exists (rev pre). split.
    + rewrite <- (rev_involutive s), Hrev, rev_app_distr. simpl.
      rewrite <- app_assoc. reflexivity.
    + rewrite elem_of_rev. exact Hpre.
  - left. apply after_first_none in Hr. rewrite elem_of_rev in Hr. auto.
Qed.

Lemma rsplit1_head_length sep s : (length (rsplit1_head sep s) ≤ length s)%nat.
Proof.
  destruct (rsplit1_head_spec sep s) as [[_ ->] | (tail & Hs & _)]; [lia|].
  rewrite Hs at 2. rewrite length_app. lia.
Qed.

Lemma dropwhile_length p s : (length (dropwhile p s) ≤ length s)%nat.
Proof.
  induction s as [|c s IH]; simpl; [lia|]. destruct (p c); simpl; lia.
Qed.

Lemma dropwhile_head p s c rest :
  dropwhile p s = c :: rest → p c = false.
Proof.
  induction s as [|d s IH]; simpl; [discriminate|].
  destruct (p d) eqn:Hd; [exact IH|]. intros [= <- _]. exact Hd.
Qed.

(** A text that neither begins nor ends with white space is its own
    trimming. *)
Lemma strip_id c rest front d :
  c :: rest = front ++ [d] →
  isspace c = false → isspace d = false →
  strip (c :: rest) = c :: rest.
Proof.
  intros Hs Hc Hd. rewrite strip_cons by exact Hc. f_equal.
  destruct front as [|x front]; injection Hs as -> ->.
  - reflexivity.
  - apply rstrip_snoc. exact Hd.
Qed.

Lemma emoji_class_not_space c : in_emoji_class c = false → isspace c = false.
Proof.
  unfold in_emoji_class. intros H. apply orb_false_iff in H as [_ H]. exact H.
Qed.

(** C6, as amended.  A text longer than 200 characters is cut to its
    first 200 characters, cut again before the last space (U+0020) among
    them when there is one, and followed by the ellipsis; a text of at
    most 200 characters is not cut.  In all cases the text is then
    trimmed of white space at both ends, loses its leading run of emoji,
    pictograph and white-space characters, and is wrapped in the robot
    marker and the underscores.  So 250 characters that are not white
    space are cut at 200 and end with the ellipsis, and a text of at
    most 200 characters that neither begins with such a character nor
    ends with white space is wrapped as it is. *)
Theorem response_shaping text :
  let first := take 200 text in
  let cut := rsplit1_head 32 first in
  ((200 < length text)%nat →
   truncate_response text = cut ++ py "..." ∧
   (length cut ≤ 200)%nat ∧
   (((32 ∉ first) ∧ cut = first) ∨
    (∃ tail, first = cut ++ 32 :: tail ∧ 32 ∉ tail))) ∧
  ((length text ≤ 200)%nat → truncate_response text = text) ∧
  shaped_response text =
    [robot; 32; underscore]
    ++ dropwhile in_emoji_class (strip (truncate_response text))
    ++ [underscore] ∧
  (∀ c rest,
     dropwhile in_emoji_class (strip (truncate_response text)) = c :: rest →
     in_emoji_class c = false) ∧
  (length text = 250%nat → Forall (λ c, isspace c = false) text →
   ∃ body,
     shaped_response text =
       [robot; 32; underscore] ++ body ++ py "..." ++ [underscore] ∧
     body = dropwhile in_emoji_class first ∧
     (length body ≤ 200)%nat) ∧
  ((length text ≤ 200)%nat →
   (∀ c rest, text = c :: rest → in_emoji_class c = false) →
   (∀ front d, text = front ++ [d] → isspace d = false) →
   shaped_response text = [robot; 32; underscore] ++ text ++ [underscore]).
Proof.
  intros first cut.
  assert (Hlong : (200 < length text)%nat →
                  truncate_response text = cut ++ py "...").
  { intros H. unfold truncate_response, max_response_length.
    destruct (Nat.ltb_spec 200 (length text)); [reflexivity | lia]. }
  assert (Hshort : (length text ≤ 200)%nat → truncate_response text = text).
  { intros H. unfold truncate_response, max_response_length.
    destruct (Nat.ltb_spec 200 (length text)); [lia | reflexivity]. }
  assert (Hfirst : (length first ≤ 200)%nat).
  { subst first. rewrite length_take. lia. }
  split; [|split; [|split; [|split; [|split]]]].
  - intros H. split; [exact (Hlong H)|]. split.
    + pose proof (rsplit1_head_length 32 first). fold cut in H0. lia.
    + destruct (rsplit1_head_spec 32 first) as [[Hno Heq] | Hyes]; auto.
  - exact Hshort.
  - reflexivity.
  - intros c rest. apply dropwhile_head.
  - intros Hlen Hall.
    assert (Hno : 32 ∉ first).
    { intros Hin. apply elem_of_take in Hin as (i & Hi & _).
      apply list_elem_of_lookup_2 in Hi.
      rewrite Forall_forall in Hall. specialize (Hall 32 Hi). discriminate Hall. }
    assert (Hcut : cut = first).
    { subst cut. destruct (rsplit1_head_spec 32 first) as [[_ Heq] | (tail & Heq & _)];
        [exact Heq|].
      exfalso. apply Hno. rewrite Heq. apply elem_of_app. right. left. }
    assert (Hne : ∃ c rest, first = c :: rest ∧ isspace c = false).
    { subst first. destruct text as [|c rest]; [discriminate Hlen|].
      exists c, (take 199 rest). split; [reflexivity|].
      apply Forall_cons in Hall as [Hc _]. exact Hc. }
    destruct Hne as (c & rest & Hfirst_eq & Hc).
    exists (dropwhile in_emoji_class first).
    split; [|split; [reflexivity|]].
    + unfold shaped_response, formatted_response, clean_response.
      rewrite Hlong by lia. rewrite Hcut, Hfirst_eq.
      replace ((c :: rest) ++ py "...") with (c :: (rest ++ py "..") ++ [46])
        by (simpl; rewrite <- app_assoc; reflexivity).
      rewrite strip_cons by exact Hc.
      rewrite rstrip_snoc by reflexivity.
      replace (c :: (rest ++ py "..") ++ [46]) with ((c :: rest) ++ 46 :: py "..")
        by (simpl; rewrite <- app_assoc; reflexivity).
      rewrite dropwhile_app_stop by reflexivity.
      rewrite <- !app_assoc. reflexivity.
    + pose proof (dropwhile_length in_emoji_class first). lia.
  - intros Hlen Hhead Hlast.
    unfold shaped_response, formatted_response, clean_response.
    rewrite Hshort by exact Hlen.
    destruct text as [|c rest]; [reflexivity|].
    pose proof (Hhead c rest eq_refl) as Hc.
    destruct (exists_last (l := c :: rest)) as (front & d & Hs); [discriminate|].
    rewrite (strip_id c rest front d Hs)
      by (first [apply emoji_class_not_space; exact Hc | exact (Hlast front d Hs)]).
    rewrite dropwhile_stop by exact Hc. reflexivity.
Qed.

Lemma response_shaping_witness :
  (200 < length two_lines)%nat ∧
  truncate_response two_lines =
    rsplit1_head 32 (take 200 two_lines) ++ py "...".
Proof.
  assert (H : (200 < length two_lines)%nat) by (vm_compute; lia).
  split; [exact H|].
  destruct (response_shaping two_lines) as [Hlong _].
  destruct (Hlong H) as [Heq _]. exact Heq.
Defined.

(** C6, as stated, fails twice.  A short text that ends with white space
    is not returned as it is inside the wrapper: the white space is
    trimmed.  And a long text whose only white space is a line feed is
    not cut at that white space: the cut is at 200 characters. *)
Lemma reply_not_as_stated :
  (length (py "hi ") < 200)%nat ∧
  shaped_response (py "hi ") = formatted_response (py "hi") ∧
  shaped_response (py "hi ") ≠ formatted_response (py "hi ") ∧
  length two_lines = 250%nat ∧
  two_lines !! 100%nat = Some 10 ∧ isspace 10 = true ∧
  truncate_response two_lines = take 200 two_lines ++ py "..." ∧
  truncate_response two_lines ≠ take 100 two_lines ++ py "...".
Proof.
  split; [vm_compute; lia|].
  split; [vm_compute; reflexivity|].
  split; [vm_compute; discriminate|].
  split; [vm_compute; reflexivity|].
  split; [vm_compute; reflexivity|].
  split; [reflexivity|].
  split; [vm_compute; reflexivity|].
  vm_compute. discriminate.
Qed.

End HookProofs.

(* ===================================================================== *)
(** ** Further properties of the paid job flow                           *)
(* ===================================================================== *)

Module JobExtras.
Import PyStr Effects Jobs JobSpec JobProofs.

(** *** Status queries *)

(** X1.  A status query for a job identifier that is not in the store
    raises the 404 error, leaves both registries as they are and does
    not ask the payment service. *)
Theorem get_status_unknown_job env job_id st :
  jobs st !! job_id = None →
  get_status env job_id st = (Raises (HTTPException 404), st, []).
Proof.
  intros Hj. unfold get_status, bind, get, raise. rewrite Hj. reflexivity.
Qed.

Lemma get_status_unknown_job_witness :
  jobs empty_store !! py "job-9" = None ∧
  get_status (sample_env (Returns done) (Returns tt) (Returns tt) (Returns tt))
    (py "job-9") empty_store =
    (Raises (HTTPException 404), empty_store, []).
Proof.
  assert (H : jobs empty_store !! py "job-9" = None) by reflexivity.
  split; [exact H|]. exact (get_status_unknown_job _ _ _ H).
Defined.

(** What a status query on a stored job does, by what the payment
    service answers. *)
Lemma get_status_known env st job_id j :
  jobs st !! job_id = Some j →
  let seen_status :=
    match payment_instances st !! job_id with
    | None => payment_status j
    | Some _ =>
        match check_payment_status env with
        | Returns s => s
        | Raises (ValueError _) => Some (py "unknown")
        | Raises _ => Some (py "error")
        end
    end in
  let st' :=
    match payment_instances st !! job_id with
    | None => st
    | Some _ => with_job st job_id (set_payment_status seen_status j)
    end in
  result_of (get_status env job_id st) =
    Returns {| sr_job_id := job_id;
               sr_status := status j;
               sr_payment_status := seen_status;
               sr_result := match result j with
                            | Some r => raw r
                            | None => None
                            end |} ∧
  state_of (get_status env job_id st) = st'.
Proof.
  intros Hj.
  unfold get_status, set_job_item, get_job, try_except, bind, emit, answer,
    get, ret, raise, put, state_of, result_of, with_job. simpl.
  rewrite Hj. simpl.
  destruct (payment_instances st !! job_id) as [p|] eqn:Hp.
  - destruct (decide (is_Some (Some p))) as [_|Hn]; [|exfalso; apply Hn; eauto].
    simpl.
    destruct (check_payment_status env) as [s|e]; simpl.
    + rewrite ?Hj. simpl. rewrite ?lookup_insert_eq. simpl. split; reflexivity.
    + destruct e; simpl; rewrite ?Hj; simpl; rewrite ?lookup_insert_eq; simpl;
        split; reflexivity.
  - destruct (decide (is_Some None)) as [[? Hn]|_]; [discriminate Hn|].
    simpl. rewrite ?Hj. simpl. split; reflexivity.
Qed.

(** With a payment instance registered, the payment service is asked. *)
Lemma get_status_asks env st job_id j p :
  jobs st !! job_id = Some j →
  payment_instances st !! job_id = Some p →
  CheckPaymentStatus job_id ∈ trace_of (get_status env job_id st).
Proof.
  intros Hj Hp.
  unfold get_status, set_job_item, get_job, try_except, bind, emit, answer,
    get, ret, raise, put, trace_of. simpl. rewrite Hj. simpl.
  destruct (decide (is_Some (payment_instances st !! job_id))) as [_|Hn].
  - simpl. destruct (check_payment_status env) as [s|e]; simpl.
    + rewrite ?Hj. simpl. rewrite ?lookup_insert_eq. simpl. left.
    + destruct e; simpl; rewrite ?Hj; simpl; rewrite ?lookup_insert_eq; simpl;
        left.
  - exfalso. apply Hn. rewrite Hp. eauto.
Qed.

(** Without a payment instance, the payment service is not asked. *)
Lemma get_status_silent env st job_id j :
  jobs st !! job_id = Some j →
  payment_instances st !! job_id = None →
  trace_of (get_status env job_id st) = [].
Proof.
  intros Hj Hp.
  unfold get_status, set_job_item, get_job, try_except, bind, emit, answer,
    get, ret, raise, put, trace_of. simpl. rewrite Hj. simpl.
  destruct (decide (is_Some (payment_instances st !! job_id))) as [Hs|_].
  - rewrite Hp in Hs. destruct Hs as [? Hs]. discriminate Hs.
  - simpl. rewrite Hj. reflexivity.
Qed.

(** X2.  A status query on a stored job never raises.  It reports the
    job's status and the raw text of its result as they are stored; the
    payment status it reports is the stored one when no payment instance
    is registered for the job, else what the payment service answers,
    [unknown] when the check raises a [ValueError] and [error] when it
    raises anything else. *)
Theorem get_status_degrades env st job_id j :
  jobs st !! job_id = Some j →
  ∃ resp,
    result_of (get_status env job_id st) = Returns resp ∧
    sr_job_id resp = job_id ∧
    sr_status resp = status j ∧
    sr_result resp = match result j with Some r => raw r | None => None end ∧
    (payment_instances st !! job_id = None →
     sr_payment_status resp = payment_status j ∧
     trace_of (get_status env job_id st) = []) ∧
    (is_Some (payment_instances st !! job_id) →
     (∀ s, check_payment_status env = Returns s → sr_payment_status resp = s) ∧
     (∀ m, check_payment_status env = Raises (ValueError m) →
           sr_payment_status resp = Some (py "unknown")) ∧
     (∀ e, check_payment_status env = Raises e →
           (∀ m, e ≠ ValueError m) →
           sr_payment_status resp = Some (py "error"))).
Proof.
  intros Hj. destruct (get_status_known env st job_id j Hj) as [Hres _].
  eexists. split; [exact Hres|]. simpl.
  split; [reflexivity|]. split; [reflexivity|]. split; [reflexivity|]. split.
  - intros Hp. split; [rewrite Hp; reflexivity|].
    exact (get_status_silent env st job_id j Hj Hp).
  - intros [p Hp]. rewrite Hp. split; [|split].
    + intros s ->. reflexivity.
    + intros m ->. reflexivity.
    + intros e -> Hne. destruct e; try reflexivity. exfalso. eapply Hne. reflexivity.
Qed.

Lemma get_status_degrades_witness :
  let env := sample_env (Returns done) (Returns tt) (Returns tt) (Returns tt) in
  is_Some (jobs created !! py "job-1") ∧
  ∃ resp,
    result_of (get_status env (py "job-1") created) = Returns resp ∧
    sr_status resp = awaiting_payment ∧ sr_result resp = None.
Proof.
  intros env.
  assert (Hj : jobs created !! py "job-1" =
               Some (new_job sample_request (py "pay-1")))
    by (vm_compute; reflexivity).
  split; [rewrite Hj; eauto|].
  destruct (get_status_degrades env created (py "job-1") _ Hj)
    as (resp & Hres & _ & Hst & Hr & _).
  exists resp. split; [exact Hres|]. split; [exact Hst | exact Hr].
Defined.

(** X3.  A status query changes nothing but the payment status of the
    job it asks about: the payment instances stay as they are, every
    other job stays as it is, no job appears or disappears, and the
    status, result, error, payment identifier and input of the queried
    job are kept. *)
Theorem get_status_frame env job_id st :
  let st' := state_of (get_status env job_id st) in
  payment_instances st' = payment_instances st ∧
  (∀ k, k ≠ job_id → jobs st' !! k = jobs st !! k) ∧
  (jobs st !! job_id = None → jobs st' !! job_id = None) ∧
  (∀ j, jobs st !! job_id = Some j →
        ∃ j', jobs st' !! job_id = Some j' ∧
              status j' = status j ∧ result j' = result j ∧
              error j' = error j ∧ payment_id j' = payment_id j ∧
              input_data j' = input_data j ∧
              identifier_from_purchaser j' = identifier_from_purchaser j).
Proof.
  intros st'. subst st'.
  destruct (jobs st !! job_id) as [j|] eqn:Hj.
  - destruct (get_status_known env st job_id j Hj) as [_ ->].
    destruct (payment_instances st !! job_id) as [p|].
    + split; [reflexivity|]. split; [|split].
      * intros k Hk. simpl. by rewrite lookup_insert_ne.
      * discriminate.
      * intros j0 [= <-]. eexists. split; [apply with_job_lookup|].
        repeat split; reflexivity.
    + split; [reflexivity|]. split; [reflexivity|]. split; [discriminate|].
      intros j0 [= <-]. exists j. rewrite Hj. repeat split; reflexivity.
  - unfold get_status, bind, get, raise. rewrite ?Hj. simpl.
    split; [reflexivity|]. split; [reflexivity|]. split; [auto|].
    intros j0 H. discriminate H.
Qed.

Lemma get_status_frame_witness :
  let env := sample_env (Returns done) (Returns tt) (Returns tt) (Returns tt) in
  jobs created !! py "job-1" = Some (new_job sample_request (py "pay-1")) ∧
  ∃ j', jobs (state_of (get_status env (py "job-1") created)) !! py "job-1"
          = Some j' ∧ status j' = awaiting_payment.
Proof.
  intros env.
  assert (Hj : jobs created !! py "job-1" =
               Some (new_job sample_request (py "pay-1")))
    by (vm_compute; reflexivity).
  split; [exact Hj|].
  destruct (get_status_frame env (py "job-1") created) as (_ & _ & _ & Hq).
  destruct (Hq _ Hj) as (j' & Hj' & Hs & _).
  exists j'. split; [exact Hj' | exact Hs].
Defined.

(** *** Job creation *)

(** X4.  A request without the ["text"] field, or one whose payment
    request fails, is answered with the 400 error and leaves both
    registries as they are; without the field the payment service is not
    even asked. *)
Theorem start_job_rejected env job_id data st :
  rq_input_data data !! py "text" = None ∨
  (∃ e, create_payment_request env = Raises e) →
  result_of (start_job env job_id data st) = Raises (HTTPException 400) ∧
  state_of (start_job env job_id data st) = st ∧
  (rq_input_data data !! py "text" = None →
   CreatePaymentRequest ∉ trace_of (start_job env job_id data st)).
Proof.
  intros Hcase.
  unfold start_job, try_except, bind, emit, answer, store_job, store_payment,
    get, put, ret, raise, state_of, result_of, trace_of.
  destruct (rq_input_data data !! py "text") as [txt|] eqn:Htxt; simpl.
  - destruct Hcase as [H | [e He]]; [discriminate H|]. rewrite He. simpl.
    repeat split. discriminate.
  - repeat split. intros _ Hin.
    apply list_elem_of_singleton in Hin. discriminate Hin.
Qed.

Lemma start_job_rejected_witness :
  let env := sample_env (Returns done) (Returns tt) (Returns tt) (Returns tt) in
  let data := {| rq_identifier_from_purchaser := py "alice";
                 rq_input_data := ∅ |} in
  rq_input_data data !! py "text" = None ∧
  result_of (start_job env (py "job-1") data empty_store) =
    Raises (HTTPException 400) ∧
  state_of (start_job env (py "job-1") data empty_store) = empty_store.
Proof.
  intros env data.
  assert (H : rq_input_data data !! py "text" = None) by reflexivity.
  split; [exact H|].
  destruct (start_job_rejected env (py "job-1") data empty_store (or_introl H))
    as (Hr & Hs & _).
  split; [exact Hr | exact Hs].
Defined.

(** X5.  When the payment request succeeds and the start of the monitor
    raises, the caller gets the 400 error, yet the job is in the store
    with status [awaiting_payment] and its payment instance is
    registered. *)
Theorem start_job_leaves_job_behind env job_id data st txt pid e :
  rq_input_data data !! py "text" = Some txt →
  create_payment_request env = Returns pid →
  start_status_monitoring env = Raises e →
  let r := start_job env job_id data st in
  result_of r = Raises (HTTPException 400) ∧
  jobs (state_of r) !! job_id = Some (new_job data pid) ∧
  is_Some (payment_instances (state_of r) !! job_id) ∧
  (∀ k, k ≠ job_id →
        jobs (state_of r) !! k = jobs st !! k ∧
        payment_instances (state_of r) !! k = payment_instances st !! k).
Proof.
  intros Htxt Hpid Hmon r. subst r.
  unfold start_job, try_except, bind, emit, answer, store_job, store_payment,
    get, put, ret, raise, state_of, result_of.
  rewrite Htxt. simpl. rewrite Hpid. simpl. rewrite Hmon. simpl.
  split; [reflexivity|]. split; [apply lookup_insert_eq|].
  split; [rewrite lookup_insert_eq; eauto|].
  intros k Hk. by rewrite !lookup_insert_ne.
Qed.

Lemma start_job_leaves_job_behind_witness :
  let env := {| create_payment_request := Returns (py "pay-1");
                start_status_monitoring := Raises boom;
                execute_crew_task := λ _, Returns done;
                complete_payment := λ _ _, Returns tt;
                stop_in_body := Returns tt;
                stop_in_handler := Returns tt;
                check_payment_status := Returns None |} in
  let r := start_job env (py "job-1") sample_request empty_store in
  start_status_monitoring env = Raises boom ∧
  result_of r = Raises (HTTPException 400) ∧
  jobs (state_of r) !! py "job-1" = Some (new_job sample_request (py "pay-1")).
Proof.
  intros env r. split; [reflexivity|].
  destruct (start_job_leaves_job_behind env (py "job-1") sample_request
              empty_store (py "hi") (py "pay-1") boom)
    as (Hr & Hj & _); [vm_compute; reflexivity | reflexivity | reflexivity |].
  split; [exact Hr | exact Hj].
Defined.

(** X6.  Whatever the collaborators answer, [/start_job] either returns
    the job identifier it drew, together with the payment identifier,
    or raises the 400 error: no other exception leaves it. *)
Theorem start_job_answers env job_id data st :
  (∃ pid, result_of (start_job env job_id data st) =
            Returns {| rs_job_id := job_id; rs_blockchainIdentifier := pid |} ∧
          create_payment_request env = Returns pid) ∨
  result_of (start_job env job_id data st) = Raises (HTTPException 400).
Proof.
  unfold start_job, try_except, bind, emit, answer, store_job, store_payment,
    get, put, ret, raise, result_of.
  destruct (rq_input_data data !! py "text") as [txt|]; simpl; [|by right].
  destruct (create_payment_request env) as [pid|e]; simpl; [|by right].
  destruct (start_status_monitoring env) as [[]|e]; simpl; [|by right].
  left. eauto.
Qed.

(** *** The payment callback *)

(** X7.  The callback for a job that is not in the store lets a
    [KeyError] escape: the handler itself fails on the missing job.  The
    task executor is not called and both registries stay as they are. *)
Theorem callback_unknown_job env job_id payment_id st :
  jobs st !! job_id = None →
  handle_payment_status env job_id payment_id st =
    (Raises (KeyError job_id), st, [LogError (str_exn (KeyError job_id))]).
Proof.
  intros Hj. unfold handle_payment_status, try_except, bind, begin_job.
  rewrite set_job_item_absent by exact Hj.
  unfold fail_job, bind, emit.
  rewrite set_job_item_absent by exact Hj. reflexivity.
Qed.

Lemma callback_unknown_job_witness :
  let env := sample_env (Returns done) (Returns tt) (Returns tt) (Returns tt) in
  jobs empty_store !! py "job-9" = None ∧
  result_of (handle_payment_status env (py "job-9") (py "pay-9") empty_store) =
    Raises (KeyError (py "job-9")).
Proof.
  intros env.
  assert (H : jobs empty_store !! py "job-9" = None) by reflexivity.
  split; [exact H|].
  rewrite (callback_unknown_job env (py "job-9") (py "pay-9") empty_store H).
  reflexivity.
Defined.

(** The registries after the second half of the callback, on a stored
    job: the job is replaced and its payment instance kept or removed. *)
Lemma settle_job_state env st job_id payment_id j :
  jobs st !! job_id = Some j →
  ∃ j',
    jobs (state_of (settle_job env job_id payment_id st)) =
      <[job_id := j']> (jobs st) ∧
    (payment_instances (state_of (settle_job env job_id payment_id st)) =
       payment_instances st ∨
     payment_instances (state_of (settle_job env job_id payment_id st)) =
       delete job_id (payment_instances st)).
Proof.
  intros Hj. unfold settle_job, try_except.
  erewrite finish_job_present by exact Hj.
  destruct (execute_crew_task env (input_data j)) as [out|e].
  - destruct (payment_instances st !! job_id) as [p|] eqn:Hp.
    + destruct (complete_payment env payment_id (json_dict out)) as [[]|e].
      * destruct (stop_in_body env) as [[]|e] eqn:Hstop.
        -- eexists. split; [reflexivity|]. right. reflexivity.
        -- erewrite fail_job_present by apply with_job_lookup.
           erewrite release_monitor_present by (simpl; exact Hp).
           destruct (stop_in_handler env) as [[]|e']; simpl;
             rewrite insert_insert_eq; eexists; (split; [reflexivity|]); auto.
      * erewrite fail_job_present by exact Hj.
        erewrite release_monitor_present by (simpl; exact Hp).
        destruct (stop_in_handler env) as [[]|e']; simpl;
          eexists; (split; [reflexivity|]); auto.
    + erewrite fail_job_present by exact Hj.
      rewrite release_monitor_absent by (simpl; exact Hp).
      eexists. split; [reflexivity|]. auto.
  - erewrite fail_job_present by exact Hj.
    destruct (payment_instances st !! job_id) as [p|] eqn:Hp.
    + erewrite release_monitor_present by (simpl; exact Hp).
      destruct (stop_in_handler env) as [[]|e']; simpl;
        eexists; (split; [reflexivity|]); auto.
    + rewrite release_monitor_absent by (simpl; exact Hp).
      eexists. split; [reflexivity|]. auto.
Qed.

(** X8.  The callback of one job touches neither the other jobs nor
    their payment instances, whatever the collaborators answer and
    whether the job exists or not. *)
Theorem callback_frame env job_id payment_id st k :
  k ≠ job_id →
  let st' := state_of (handle_payment_status env job_id payment_id st) in
  jobs st' !! k = jobs st !! k ∧
  payment_instances st' !! k = payment_instances st !! k.
Proof.
  intros Hk st'. subst st'.
  destruct (jobs st !! job_id) as [j|] eqn:Hj.
  - erewrite handle_payment_status_split by exact Hj.
    destruct (settle_job_state env (with_job st job_id (set_status running j))
                job_id payment_id _ (with_job_lookup _ _ _))
      as (j' & Hjobs & Hpay).
    split.
    + rewrite Hjobs. simpl. by rewrite !lookup_insert_ne.
    + destruct Hpay as [-> | ->]; simpl; [reflexivity|].
      by rewrite lookup_delete_ne.
  - unfold handle_payment_status, try_except, bind, begin_job.
    rewrite set_job_item_absent by exact Hj.
    unfold fail_job, bind, emit.
    rewrite set_job_item_absent by exact Hj. split; reflexivity.
Qed.

Lemma callback_frame_witness :
  let env := sample_env (Returns done) (Returns tt) (Returns tt) (Returns tt) in
  py "job-2" ≠ py "job-1" ∧
  jobs (state_of (handle_payment_status env (py "job-1") (py "pay-1") created))
    !! py "job-2" = jobs created !! py "job-2".
Proof.
  intros env.
  assert (H : py "job-2" ≠ py "job-1") by (vm_compute; discriminate).
  split; [exact H|].
  exact (proj1 (callback_frame env (py "job-1") (py "pay-1") created
                  (py "job-2") H)).
Defined.

(** X9.  When the callback runs on a stored job whose payment instance
    is not registered (as on a second delivery after the release), the
    payment is never finalized: the job ends [failed], with the
    [KeyError] of the missing instance as its error when the task
    executor returned, its earlier result is kept as it was, and the
    callback returns. *)
Theorem callback_without_instance env job_id payment_id st j :
  jobs st !! job_id = Some j →
  payment_instances st !! job_id = None →
  let r := handle_payment_status env job_id payment_id st in
  result_of r = Returns tt ∧
  (∀ pid d, CompletePayment job_id pid d ∉ trace_of r) ∧
  (StopStatusMonitoring job_id ∉ trace_of r) ∧
  ∃ j', jobs (state_of r) !! job_id = Some j' ∧
        status j' = failed ∧ result j' = result j ∧
        (∀ out, execute_crew_task env (input_data j) = Returns out →
                error j' = Some (str_exn (KeyError job_id))) ∧
        (∀ e, execute_crew_task env (input_data j) = Raises e →
              error j' = Some (str_exn e)).
Proof.
  intros Hj Hp r. subst r.
  erewrite handle_payment_status_split by exact Hj.
  set (j1 := set_status running j).
  assert (Hj1 : jobs (with_job st job_id j1) !! job_id = Some j1)
    by apply with_job_lookup.
  assert (Hp1 : payment_instances (with_job st job_id j1) !! job_id = None)
    by exact Hp.
  unfold settle_job, try_except.
  erewrite finish_job_present by exact Hj1. rewrite Hp1.
  change (input_data j1) with (input_data j).
  destruct (execute_crew_task env (input_data j)) as [out|e];
    erewrite fail_job_present by exact Hj1;
    rewrite release_monitor_absent by (simpl; exact Hp);
    cbn [fst snd app result_of state_of trace_of].
  - split; [reflexivity|]. split; [|split].
    + intros pid d Hin.
      apply elem_of_cons in Hin as [Hin|Hin]; [discriminate Hin|].
      apply list_elem_of_singleton in Hin. discriminate Hin.
    + intros Hin.
      apply elem_of_cons in Hin as [Hin|Hin]; [discriminate Hin|].
      apply list_elem_of_singleton in Hin. discriminate Hin.
    + eexists. split; [simpl; apply lookup_insert_eq|].
      split; [reflexivity|]. split; [reflexivity|]. split.
      * intros _ _. reflexivity.
      * intros e H. discriminate H.
  - split; [reflexivity|]. split; [|split].
    + intros pid d Hin.
      apply elem_of_cons in Hin as [Hin|Hin]; [discriminate Hin|].
      apply list_elem_of_singleton in Hin. discriminate Hin.
    + intros Hin.
      apply elem_of_cons in Hin as [Hin|Hin]; [discriminate Hin|].
      apply list_elem_of_singleton in Hin. discriminate Hin.
    + eexists. split; [simpl; apply lookup_insert_eq|].
      split; [reflexivity|]. split; [reflexivity|]. split.
      * intros out H. discriminate H.
      * intros e0 [= <-]. reflexivity.
Qed.

Lemma callback_without_instance_witness :
  let env := sample_env (Returns done) (Returns tt) (Returns tt) (Returns tt) in
  let st := state_of (handle_payment_status env (py "job-1") (py "pay-1") created) in
  let r := handle_payment_status env (py "job-1") (py "pay-1") st in
  payment_instances st !! py "job-1" = None ∧
  result_of r = Returns tt ∧
  ∃ j', jobs (state_of r) !! py "job-1" = Some j' ∧
        status j' = failed ∧ result j' = Some done.
Proof.
  intros env st r.
  assert (Hj : jobs st !! py "job-1" =
               Some (completed_job done
                       (set_status running (new_job sample_request (py "pay-1")))))
    by (vm_compute; reflexivity).
  assert (Hp : payment_instances st !! py "job-1" = None)
    by (vm_compute; reflexivity).
  split; [exact Hp|].
  destruct (callback_without_instance env (py "job-1") (py "pay-1") st _ Hj Hp)
    as (Hr & _ & _ & j' & Hj' & Hs & Hres & _).
  split; [exact Hr|]. exists j'. split; [exact Hj'|]. split; [exact Hs|].
  rewrite Hres. reflexivity.
Defined.

(** *** Creation, callback and query together *)

Lemma start_job_returns_id env job_id data st rs st1 t1 :
  start_job env job_id data st = (Returns rs, st1, t1) →
  rs_job_id rs = job_id.
Proof.
  unfold start_job, try_except, bind, emit, answer, store_job, store_payment,
    get, put, ret, raise.
  destruct (rq_input_data data !! py "text") as [txt|]; simpl; [|discriminate].
  destruct (create_payment_request env) as [pid|e]; simpl; [|discriminate].
  destruct (start_status_monitoring env) as [[]|e]; simpl; [|discriminate].
  intros H. injection H as <- _ _. reflexivity.
Qed.

(** X10.  A status query right after a successful [/start_job] reports
    the status [awaiting_payment] and no result, whatever the payment
    service answers to the check. *)
Theorem status_after_creation env job_id data st rs st1 t1 env' :
  start_job env job_id data st = (Returns rs, st1, t1) →
  ∃ resp,
    result_of (get_status env' job_id st1) = Returns resp ∧
    sr_job_id resp = rs_job_id rs ∧
    sr_status resp = awaiting_payment ∧
    sr_result resp = None ∧
    CheckPaymentStatus job_id ∈ trace_of (get_status env' job_id st1).
Proof.
  intros Hstart.
  pose proof (start_job_returns_id _ _ _ _ _ _ _ Hstart) as Hrs.
  destruct (start_job_returns _ _ _ _ _ _ _ Hstart) as (pid & _ & ->).
  set (st1 := {| jobs := _ |}).
  assert (Hj : jobs st1 !! job_id = Some (new_job data pid))
    by apply lookup_insert_eq.
  destruct (get_status_known env' st1 job_id _ Hj) as [Hres _].
  eexists. split; [exact Hres|]. simpl.
  split; [symmetry; exact Hrs|]. split; [reflexivity|]. split; [reflexivity|].
  eapply get_status_asks; [exact Hj | apply lookup_insert_eq].
Qed.

Lemma status_after_creation_witness :
  let env := sample_env (Returns done) (Returns tt) (Returns tt) (Returns tt) in
  start_job env (py "job-1") sample_request empty_store =
    (Returns {| rs_job_id := py "job-1"; rs_blockchainIdentifier := py "pay-1" |},
     created,
     [CreatePaymentRequest; StartStatusMonitoring (py "job-1")]) ∧
  ∃ resp,
    result_of (get_status env (py "job-1") created) = Returns resp ∧
    sr_status resp = awaiting_payment ∧ sr_result resp = None.
Proof.
  intros env.
  assert (Hs : start_job env (py "job-1") sample_request empty_store =
    (Returns {| rs_job_id := py "job-1"; rs_blockchainIdentifier := py "pay-1" |},
     created,
     [CreatePaymentRequest; StartStatusMonitoring (py "job-1")]))
    by (vm_compute; reflexivity).
  split; [exact Hs|].
  destruct (status_after_creation _ _ _ _ _ _ _ env Hs)
    as (resp & Hres & _ & Hst & Hr & _).
  exists resp. split; [exact Hres|]. split; [exact Hst | exact Hr].
Defined.

(** X11.  After a successful [/start_job] and a callback in which the
    task execution, the payment finalization and the stop of the monitor
    succeed, a status query reports the status [completed], the payment
    status [completed] and the raw text of the result, without asking
    the payment service. *)
Theorem status_after_completion env job_id data st rs st1 t1 env1 payment_id
    out env2 :
  start_job env job_id data st = (Returns rs, st1, t1) →
  execute_crew_task env1 (rq_input_data data) = Returns out →
  complete_payment env1 payment_id (json_dict out) = Returns tt →
  stop_in_body env1 = Returns tt →
  let st2 := state_of (handle_payment_status env1 job_id payment_id st1) in
  get_status env2 job_id st2 =
    (Returns {| sr_job_id := job_id;
                sr_status := completed;
                sr_payment_status := Some (py "completed");
                sr_result := raw out |},
     st2, []).
Proof.
  intros Hstart Hexec Hpay Hstop st2.
  destruct (start_job_returns _ _ _ _ _ _ _ Hstart) as (pid & _ & ->).
  set (p := {| pay_identifier_from_purchaser := _ |}) in *.
  set (st1 := {| jobs := _ |}) in *.
  assert (Hj : jobs st1 !! job_id = Some (new_job data pid))
    by apply lookup_insert_eq.
  assert (Hp : payment_instances st1 !! job_id = Some p)
    by apply lookup_insert_eq.
  set (j1 := set_status running (new_job data pid)).
  assert (Hst2 : st2 = released (with_job (with_job st1 job_id j1) job_id
                                   (completed_job out j1)) job_id).
  { subst st2. erewrite handle_payment_status_split by exact Hj.
    unfold settle_job, try_except.
    erewrite finish_job_present by apply with_job_lookup.
    change (input_data (set_status running (new_job data pid)))
      with (rq_input_data data).
    assert (Hp1 : payment_instances (with_job st1 job_id j1) !! job_id = Some p)
      by exact Hp.
    fold j1. rewrite Hexec, Hp1, Hpay, Hstop. reflexivity. }
  assert (Hj2 : jobs st2 !! job_id = Some (completed_job out j1)).
  { rewrite Hst2. simpl. apply lookup_insert_eq. }
  assert (Hp2 : payment_instances st2 !! job_id = None).
  { rewrite Hst2. simpl. apply lookup_delete_eq. }
  destruct (get_status_known env2 st2 job_id _ Hj2) as [Hres Hstate].
  rewrite Hp2 in Hres, Hstate. simpl in Hres.
  pose proof (get_status_silent env2 st2 job_id _ Hj2 Hp2) as Htrace.
  destruct (get_status env2 job_id st2) as [[r s] t].
  unfold result_of, state_of, trace_of in *. simpl in *.
  subst. reflexivity.
Qed.

Lemma status_after_completion_witness :
  let env := sample_env (Returns done) (Returns tt) (Returns tt) (Returns tt) in
  let st2 := state_of (handle_payment_status env (py "job-1") (py "pay-1") created) in
  stop_in_body env = Returns tt ∧
  get_status env (py "job-1") st2 =
    (Returns {| sr_job_id := py "job-1";
                sr_status := completed;
                sr_payment_status := Some (py "completed");
                sr_result := raw done |},
     st2, []).
Proof.
  intros env st2. split; [reflexivity|].
  assert (Hs : start_job env (py "job-1") sample_request empty_store =
    (Returns {| rs_job_id := py "job-1"; rs_blockchainIdentifier := py "pay-1" |},
     created,
     [CreatePaymentRequest; StartStatusMonitoring (py "job-1")]))
    by (vm_compute; reflexivity).
  exact (status_after_completion _ _ _ _ _ _ _ env (py "pay-1") done env Hs
           eq_refl eq_refl eq_refl).
Defined.

End JobExtras.

(* ===================================================================== *)
(** ** Further properties of the webhook pipeline                        *)
(* ===================================================================== *)

Module HookExtras.
Import PyStr Effects Webhook HookSpec HookProofs.

(** *** The registry *)

Lemma remember_id_size (message_id : option pystr) (seen : gset (option pystr)) :
  (size (remember_id message_id seen) ≤ 1000)%nat.
Proof.
  unfold remember_id.
  destruct (Nat.ltb_spec 1000 (size ({[message_id]} ∪ seen))).
  - rewrite size_empty. lia.
  - lia.
Qed.

Lemma process_size (env : environment) (webhook_data : webhook) (seen : gset (option pystr)) :
  (size seen ≤ 1000)%nat →
  (size (state_of (process_waha_message env webhook_data seen)) ≤ 1000)%nat.
Proof.
  intros Hsize. destruct (waha_client env) eqn:Hc.
  - rewrite process_state by exact Hc.
    destruct (decide _); [exact Hsize | apply remember_id_size].
  - rewrite process_no_client by exact Hc. exact Hsize.
Qed.

(** X12.  Whatever events arrive, in whatever order and with whatever
    answers of the collaborators, the registry of processed messages
    never holds more than 1000 identifiers. *)
Theorem registry_never_exceeds_cap env events :
  (size (registry_after env events ∅) ≤ 1000)%nat.
Proof.
  unfold registry_after.
  assert (H : ∀ seen : gset (option pystr),
            (size seen ≤ 1000)%nat →
            (size (fold_left
                     (λ s webhook_data,
                        state_of (process_waha_message env webhook_data s))
                     events seen) ≤ 1000)%nat).
  { induction events as [|webhook_data events IH]; intros seen Hsize; simpl.
    - exact Hsize.
    - apply IH, process_size, Hsize. }
  apply H. rewrite size_empty. lia.
Qed.

(** X13.  A message that was processed while the registry held fewer
    than 1000 identifiers is recorded, and the same event delivered
    again right after is skipped: nothing is executed, nothing is sent,
    and the registry stays as it is. *)
Theorem redelivery_skipped (env env' : environment) (webhook_data : webhook) (seen : gset (option pystr)) :
  waha_client env = true →
  m_id (payload_of webhook_data) ∉ seen →
  (size seen < 1000)%nat →
  let seen' := state_of (process_waha_message env webhook_data seen) in
  m_id (payload_of webhook_data) ∈ seen' ∧
  result_of (process_waha_message env' webhook_data seen') = Returns tt ∧
  state_of (process_waha_message env' webhook_data seen') = seen' ∧
  quiet (trace_of (process_waha_message env' webhook_data seen')).
Proof.
  intros Hc Hin Hsize seen'. subst seen'.
  rewrite process_state by exact Hc.
  destruct (decide _) as [?|_]; [contradiction|].
  rewrite remember_id_below by assumption.
  set (mid := m_id (payload_of webhook_data)).
  assert (Hmem : mid ∈ ({[mid]} ∪ seen : gset (option pystr))).
  { apply elem_of_union. left. apply elem_of_singleton. reflexivity. }
  split; [exact Hmem|].
  destruct (waha_client env') eqn:Hc'.
  - rewrite process_duplicate by assumption.
    split; [reflexivity|]. split; [reflexivity|].
    apply quiet_iff. split; reflexivity.
  - rewrite process_no_client by assumption.
    split; [reflexivity|]. split; [reflexivity|].
    apply quiet_iff. split; reflexivity.
Qed.

Lemma redelivery_skipped_witness :
  let env := chat_env (says (py "ok")) in
  let seen' := state_of (process_waha_message env (numbered 7) ∅) in
  (size (∅ : gset (option pystr)) < 1000)%nat ∧
  m_id (payload_of (numbered 7)) ∈ seen' ∧
  quiet (trace_of (process_waha_message env (numbered 7) seen')).
Proof.
  intros env seen'.
  assert (Hsize : (size (∅ : gset (option pystr)) < 1000)%nat)
    by (rewrite size_empty; lia).
  split; [exact Hsize|].
  destruct (redelivery_skipped env env (numbered 7) ∅ eq_refl
              (not_elem_of_empty _) Hsize) as (Hin & _ & _ & Hq).
  split; [exact Hin | exact Hq].
Defined.

(** *** The handler of the endpoint *)

Lemma process_returns env webhook_data seen :
  result_of (process_waha_message env webhook_data seen) = Returns tt.
Proof.
  destruct (waha_client env) eqn:Hc.
  - destruct (decide (m_id (payload_of webhook_data) ∈ seen)) as [Hin|Hin].
    + rewrite process_duplicate by assumption. reflexivity.
    + apply (process_fresh_trace env webhook_data seen Hc Hin).
  - rewrite process_no_client by assumption. reflexivity.
Qed.

(** X14.  The webhook endpoint always answers [ok] for a parsed event:
    no failure of the task executor or of the transport reaches the
    caller.  An event that is not a message event leaves the registry as
    it is and causes no execution and no send; a message event
    ([message] or [message.any]) is handed to the message pipeline. *)
Theorem webhook_always_ok env body seen :
  let r := handle_webhook env body seen in
  result_of r = Returns true ∧
  (event_type body ∉ [Some (py "message"); Some (py "message.any")] →
   state_of r = seen ∧ quiet (trace_of r)) ∧
  (event_type body ∈ [Some (py "message"); Some (py "message.any")] →
   state_of r = state_of (process_waha_message env body seen) ∧
   trace_of r = trace_of (process_waha_message env body seen)).
Proof.
  intros r. subst r. unfold handle_webhook, try_except, bind.
  destruct (decide (event_type body
                      ∈ [Some (py "message"); Some (py "message.any")]))
    as [Hin|Hin].
  - rewrite bool_decide_eq_true_2 by exact Hin.
    pose proof (process_returns env body seen) as Hr.
    destruct (process_waha_message env body seen) as [[o s] t].
    unfold result_of in Hr. simpl in Hr. subst o. unfold ret. simpl.
    split; [reflexivity|]. split; [intros; contradiction|].
    intros _. unfold state_of, trace_of. simpl. rewrite app_nil_r. auto.
  - rewrite bool_decide_eq_false_2 by exact Hin. unfold emit, ret. simpl.
    split; [reflexivity|]. split; [|intros; contradiction].
    intros _. split; [reflexivity|]. apply quiet_iff. split; reflexivity.
Qed.

Lemma webhook_always_ok_witness :
  let env := chat_env (Raises executor_failure) in
  event_type internal_event ∈ [Some (py "message"); Some (py "message.any")] ∧
  result_of (handle_webhook env internal_event ∅) = Returns true ∧
  trace_of (handle_webhook env internal_event ∅) =
    trace_of (process_waha_message env internal_event ∅).
Proof.
  intros env.
  assert (H : event_type internal_event
                ∈ [Some (py "message"); Some (py "message.any")]) by left.
  split; [exact H|].
  destruct (webhook_always_ok env internal_event ∅) as (Hr & _ & Hm).
  split; [exact Hr|]. exact (proj2 (Hm H)).
Defined.

(** *** Replies *)

Import ReplySpec.

Lemma recover_trace_sends env webhook_data e :
  sends (recover_trace env webhook_data e) = apology_sends webhook_data.
Proof.
  unfold recover_trace, apology_sends. destruct (truthy _); [|reflexivity].
  destruct (post_send_text _ _ _ _) as [[]|]; reflexivity.
Qed.

(** X15.  A text message that is not a duplicate, begins with the
    keyword and has something left after it, and for which the task
    executor and the transport both answer, causes exactly one
    execution, on the trimmed rest, and exactly one send: the shaped
    text of the executor, to the chat identifier of the main path,
    quoting the message. *)
Theorem reply_sent_once env webhook_data seen out :
  waha_client env = true →
  m_id (payload_of webhook_data) ∉ seen →
  triggers (payload_of webhook_data) →
  execute_crew_task env (instruction (payload_of webhook_data)) = Returns out →
  post_send_text env (final_chat_id webhook_data)
    (shaped_response (response_text_of out))
    (quoted (m_id (payload_of webhook_data))) = Returns tt →
  let t := trace_of (process_waha_message env webhook_data seen) in
  executions t = [instruction (payload_of webhook_data)] ∧
  sends t = [reply_send webhook_data out] ∧
  Log Info Responded ∈ t.
Proof.
  intros Hc Hin Hyes Hexec Hpost t. subst t.
  destruct (process_fresh_trace env webhook_data seen Hc Hin)
    as (_ & _ & [[Hno _] | [_ Ht]]); [contradiction|].
  unfold triggered_run in Ht. rewrite Hexec, Hpost in Ht. rewrite Ht.
  rewrite !executions_app, !sends_app.
  rewrite logs_executions, logs_sends by apply prelude_logs.
  split; [|split].
  - destruct (_ <? _)%nat; reflexivity.
  - destruct (_ <? _)%nat; reflexivity.
  - rewrite !elem_of_app. right. right. left.
Qed.

Lemma reply_sent_once_witness :
  let env := chat_env (says (py "ok")) in
  let out := {| Jobs.raw := Some (py "ok"); Jobs.as_str := py "ok";
                Jobs.json_dict := None |} in
  triggers (payload_of internal_event) ∧
  sends (trace_of (process_waha_message env internal_event ∅)) =
    [reply_send internal_event out].
Proof.
  intros env out.
  assert (Hyes : triggers (payload_of internal_event)).
  { split; [|split].
    - apply list_elem_of_In. vm_compute. auto.
    - exists 103, 103, (py " hi"). repeat split; auto.
    - vm_compute. discriminate. }
  split; [exact Hyes|].
  destruct (reply_sent_once env internal_event ∅ out eq_refl
              (not_elem_of_empty _) Hyes eq_refl eq_refl) as (_ & Hs & _).
  exact Hs.
Defined.

(** X16.  On such a message the pipeline returns whatever fails.  When
    the task executor raises, nothing is sent but the apology: one send
    to the destination of the from/to chain, quoting the message, or
    none when that destination is absent or empty.  When the executor
    answers and the send of the reply raises, the failed reply is
    followed by that apology.  Whether the apology itself can be
    delivered makes no difference. *)
Theorem failure_is_answered_once env webhook_data seen :
  waha_client env = true →
  m_id (payload_of webhook_data) ∉ seen →
  triggers (payload_of webhook_data) →
  let r := process_waha_message env webhook_data seen in
  result_of r = Returns tt ∧
  (∀ e, execute_crew_task env (instruction (payload_of webhook_data)) = Raises e →
        sends (trace_of r) = apology_sends webhook_data ∧
        Log Error (ErrorProcessing e) ∈ trace_of r) ∧
  (∀ out e,
     execute_crew_task env (instruction (payload_of webhook_data)) = Returns out →
     post_send_text env (final_chat_id webhook_data)
       (shaped_response (response_text_of out))
       (quoted (m_id (payload_of webhook_data))) = Raises e →
     sends (trace_of r) = reply_send webhook_data out :: apology_sends webhook_data ∧
     Log Error (ErrorProcessing e) ∈ trace_of r).
Proof.
  intros Hc Hin Hyes r. subst r.
  destruct (process_fresh_trace env webhook_data seen Hc Hin)
    as (Hres & _ & [[Hno _] | [_ Ht]]); [contradiction|].
  split; [exact Hres|]. split.
  - intros e Hexec. unfold triggered_run in Ht. rewrite Hexec in Ht.
    rewrite Ht, !sends_app, recover_trace_sends.
    rewrite logs_sends by apply prelude_logs. split; [reflexivity|].
    rewrite !elem_of_app. right. right. unfold recover_trace. left.
  - intros out e Hexec Hpost. unfold triggered_run in Ht.
    rewrite Hexec, Hpost in Ht.
    rewrite Ht, !sends_app, recover_trace_sends.
    rewrite logs_sends by apply prelude_logs. split.
    + destruct (_ <? _)%nat; reflexivity.
    + rewrite !elem_of_app. right. right. unfold recover_trace. left.
Qed.

Lemma failure_is_answered_once_witness :
  let env := chat_env (Raises executor_failure) in
  triggers (payload_of internal_event) ∧
  sends (trace_of (process_waha_message env internal_event ∅)) =
    apology_sends internal_event.
Proof.
  intros env.
  assert (Hyes : triggers (payload_of internal_event)).
  { split; [|split].
    - apply list_elem_of_In. vm_compute. auto.
    - exists 103, 103, (py " hi"). repeat split; auto.
    - vm_compute. discriminate. }
  split; [exact Hyes|].
  destruct (failure_is_answered_once env internal_event ∅ eq_refl
              (not_elem_of_empty _) Hyes) as (_ & Hfail & _).
  exact (proj1 (Hfail executor_failure eq_refl)).
Defined.

(** A message that does not pass the filters causes no execution and no
    send. *)
Lemma untriggered_quiet env webhook_data seen :
  ¬ triggers (payload_of webhook_data) →
  quiet (trace_of (process_waha_message env webhook_data seen)).
Proof.
  intros Hno. apply quiet_iff.
  destruct (waha_client env) eqn:Hc.
  - destruct (decide (m_id (payload_of webhook_data) ∈ seen)) as [Hin|Hin].
    + rewrite process_duplicate by assumption. split; reflexivity.
    + destruct (process_fresh_trace env webhook_data seen Hc Hin)
        as (_ & _ & [[_ [r ->]] | [Hyes _]]); [|contradiction].
      rewrite executions_app, sends_app.
      rewrite logs_executions, logs_sends by apply prelude_logs.
      split; reflexivity.
  - rewrite process_no_client by assumption. split; reflexivity.
Qed.

(** X17.  The pipeline does not look at [fromMe], yet it never answers
    its own messages: neither a shaped reply nor the apology begins with
    the keyword, so an event whose text is one of them causes no
    execution and no send. *)
Theorem own_messages_never_trigger env webhook_data seen text :
  m_body (payload_of webhook_data) = Some (shaped_response text) ∨
  m_body (payload_of webhook_data) = Some error_message →
  quiet (trace_of (process_waha_message env webhook_data seen)).
Proof.
  intros Hbody. apply untriggered_quiet.
  intros (_ & (c1 & c2 & rest & Heq & Hc1 & _) & _).
  destruct Hbody as [Hb | Hb]; rewrite Hb in Heq; simpl in Heq;
    injection Heq as <- _; destruct Hc1 as [Hg|Hg]; discriminate Hg.
Qed.

Lemma own_messages_never_trigger_witness :
  let env := chat_env (says (py "gg again")) in
  let echo :=
    text_message (Some (py "m9")) (Some (py "1@c.us")) (Some (py "2@c.us"))
      (shaped_response (py "gg again")) [] in
  m_body (payload_of echo) = Some (shaped_response (py "gg again")) ∧
  quiet (trace_of (process_waha_message env echo ∅)).
Proof.
  intros env echo.
  assert (H : m_body (payload_of echo) = Some (shaped_response (py "gg again")))
    by reflexivity.
  split; [exact H|].
  exact (own_messages_never_trigger env echo ∅ (py "gg again") (or_introl H)).
Defined.

(** *** Remapping and shaping *)

Lemma known_group_ids_are_groups ws name gid :
  find_known_group known_groups ws = Some (name, gid) →
  endswith gid (py "@g.us") = true.
Proof.
  unfold known_groups. cbn [find_known_group].
  repeat (destruct (contains ws _); [intros [= <- <-]; reflexivity|]).
  discriminate.
Qed.

Lemma first_group_id_is_group s m :
  first_group_id s = Some m → endswith m (py "@g.us") = true.
Proof.
  intros H. pose proof (first_group_id_spec s) as Hspec. rewrite H in Hspec.
  destruct Hspec as (_ & _ & _ & (ds & _ & _ & ->) & _).
  apply endswith_spec. eauto.
Qed.

(** X18.  The mapping of an internal identifier either finds nothing,
    returns the identifier as it was and logs the warning, or returns an
    identifier that ends with the group domain suffix, which the main
    path would not take for an internal identifier again. *)
Theorem remapped_id_is_final internal_id webhook_data :
  (mapped_id internal_id webhook_data = internal_id ∧
   mapping_log internal_id webhook_data =
     [Log Warning (CouldNotMap internal_id)]) ∨
  (endswith (mapped_id internal_id webhook_data) (py "@g.us") = true ∧
   is_internal_id (Some (mapped_id internal_id webhook_data)) = false).
Proof.
  assert (Hfinal : ∀ m, endswith m (py "@g.us") = true →
                        is_internal_id (Some m) = false).
  { intros m Hm. unfold is_internal_id, endswith_any. cbn [existsb].
    rewrite Hm, orb_true_r. cbn [orb negb]. apply andb_false_r. }
  unfold mapped_id, mapping_log.
  destruct (find_known_group _ _) as [[name gid]|] eqn:Hfind.
  - right. apply known_group_ids_are_groups in Hfind. auto.
  - destruct (first_group_id _) as [m|] eqn:Hm.
    + right. apply first_group_id_is_group in Hm. auto.
    + left. auto.
Qed.

Lemma strip_length s : (length (strip s) ≤ length s)%nat.
Proof.
  unfold strip, lstrip, rstrip.
  pose proof (dropwhile_length isspace (rev (dropwhile isspace (rev s)))) as H1.
  pose proof (dropwhile_length isspace (rev s)) as H2.
  rewrite !length_rev in *. lia.
Qed.

(** X19.  The reply is never longer than 207 characters: at most 200 of
    the text, the three of the ellipsis and the four of the wrapper.  A
    text of at most 200 characters gains the four of the wrapper at
    most. *)
Theorem shaped_response_bounded text :
  (length (shaped_response text) ≤ 207)%nat ∧
  ((length text ≤ 200)%nat →
   (length (shaped_response text) ≤ length text + 4)%nat).
Proof.
  assert (Hshape : (length (shaped_response text)
                    ≤ length (truncate_response text) + 4)%nat).
  { unfold shaped_response, formatted_response, clean_response.
    rewrite !length_app. simpl.
    pose proof (dropwhile_length in_emoji_class (strip (truncate_response text))).
    pose proof (strip_length (truncate_response text)). lia. }
  split.
  - assert ((length (truncate_response text) ≤ 203)%nat); [|lia].
    unfold truncate_response, max_response_length.
    destruct (Nat.ltb_spec 200 (length text)) as [Hlong|Hshort]; [|lia].
    rewrite length_app.
    pose proof (rsplit1_head_length 32 (take 200 text)) as Hcut.
    rewrite length_take in Hcut. simpl. lia.
  - intros Hshort.
    assert (truncate_response text = text) as Heq.
    { unfold truncate_response, max_response_length.
      destruct (Nat.ltb_spec 200 (length text)); [lia | reflexivity]. }
    rewrite Heq in Hshape. exact Hshape.
Qed.

Lemma shaped_response_bounded_witness :
  (length (py "hi ") ≤ 200)%nat ∧
  (length (shaped_response (py "hi ")) ≤ length (py "hi ") + 4)%nat.
Proof.
  assert (H : (length (py "hi ") ≤ 200)%nat) by (vm_compute; lia).
  split; [exact H|].
  exact (proj2 (shaped_response_bounded (py "hi ")) H).
Defined.

End HookExtras.

(* ===================================================================== *)
(** ** Properties of the client and of the management endpoints          *)
(* ===================================================================== *)

Module ClientProofs.
Import PyStr Effects Client.

Lemma call_run env v url body s :
  call env v url body s =
    match http env v url body with
    | Returns j => (Returns j, s, [Request v url body])
    | Raises e => (Raises e, s, [Request v url body; LogError e])
    end.
Proof.
  unfold call, try_except, bind, emit, answer, raise.
  destruct (http env v url body); reflexivity.
Qed.

Lemma endpoint_run {A} env (method : Api A) s :
  endpoint env method s =
    if negb (waha_client env)
    then (Returns (HTTPError 500 not_initialized), s, [])
    else match method s with
         | (Returns a, s', t) => (Returns (Success a), s', t)
         | (Raises e, s', t) =>
             (Returns (HTTPError 500 (str_exn e)), s', t ++ [LogError e])
         end.
Proof.
  unfold endpoint. destruct (negb (waha_client env)); [reflexivity|].
  unfold try_except, bind, emit, ret.
  destruct (method s) as [[[a|e] s'] t]; simpl; [|reflexivity].
  rewrite app_nil_r. reflexivity.
Qed.

Lemma get_qr_code_run env s :
  let url := base_url env ++ py "/api/sessions/" ++ session_name env
             ++ py "/auth/qr" in
  get_qr_code env s =
    match http env GET url JNull with
    | Returns (JObject fields) =>
        (Returns (default (JString []) (assoc (py "qr") fields)), s,
         [Request GET url JNull])
    | Returns j =>
        (Raises (attribute_error j), s,
         [Request GET url JNull; LogError (attribute_error j)])
    | Raises e => (Raises e, s, [Request GET url JNull; LogError e])
    end.
Proof.
  intros url. unfold get_qr_code, try_except, bind, emit, answer, raise.
  fold url. destruct (http env GET url JNull) as [[]|e]; reflexivity.
Qed.

(** X20.  [is_session_ready] never raises and makes one request, a GET
    of the session.  It answers [True] exactly when the transport
    returns a dictionary whose ["status"] is the string [WORKING]; a
    failed request, a body that is no dictionary, a missing or another
    status all give [False]. *)
Theorem is_session_ready_total env s :
  let url := base_url env ++ py "/api/sessions/" ++ session_name env in
  ∃ b t,
    is_session_ready env s = (Returns b, s, t) ∧
    requests t = [(GET, url, JNull)] ∧
    (b = true ↔
     ∃ fields, http env GET url JNull = Returns (JObject fields) ∧
               assoc (py "status") fields = Some (JString (py "WORKING"))).
Proof.
  intros url.
  unfold is_session_ready, try_except, get_session_status.
  unfold bind at 1. rewrite call_run. fold url.
  destruct (http env GET url JNull) as [j|e] eqn:Hhttp.
  - unfold bind, answer, ret, emit.
    destruct j as [|b|n|x|str|items|fields]; simpl;
      try (eexists _, _; split; [reflexivity|]; split; [reflexivity|];
           split; [discriminate | intros (f & Hf & _); discriminate Hf]).
    eexists _, _. split; [reflexivity|]. split; [reflexivity|].
    unfold is_working. split.
    + intros Hb. exists fields. split; [reflexivity|].
      destruct (assoc (py "status") fields) as [[]|]; simpl in Hb;
        try discriminate Hb.
      apply bool_decide_eq_true in Hb. rewrite Hb. reflexivity.
    + intros (f & [= <-] & ->). reflexivity.
  - unfold emit, ret. simpl.
    eexists _, _. split; [reflexivity|]. split; [reflexivity|].
    split; [discriminate | intros (f & Hf & _); discriminate Hf].
Qed.

(** X21.  The lookup of the QR code returns the string of the field
    ["qr"] of the response, the empty string when the response has no
    such field, and raises when the response is not a dictionary. *)
Theorem get_qr_code_default env s fields :
  let url := base_url env ++ py "/api/sessions/" ++ session_name env
             ++ py "/auth/qr" in
  (http env GET url JNull = Returns (JObject fields) →
   (∀ qr, assoc (py "qr") fields = Some qr →
          result_of (get_qr_code env s) = Returns qr) ∧
   (assoc (py "qr") fields = None →
    result_of (get_qr_code env s) = Returns (JString []))) ∧
  (∀ j, http env GET url JNull = Returns j →
        (∀ f, j ≠ JObject f) →
        result_of (get_qr_code env s) = Raises (attribute_error j)).
Proof.
  intros url. pose proof (get_qr_code_run env s) as Hrun. fold url in Hrun.
  cbv zeta in Hrun. fold url in Hrun. split.
  - intros Hhttp. rewrite Hhttp in Hrun. rewrite Hrun. split.
    + intros qr ->. reflexivity.
    + intros ->. reflexivity.
  - intros j Hhttp Hno. rewrite Hhttp in Hrun. rewrite Hrun.
    destruct j; try reflexivity. exfalso. eapply Hno. reflexivity.
Qed.

Lemma get_qr_code_default_witness :
  let env := answering (Returns (JObject [(py "status", JString (py "WORKING"))])) in
  http env GET (base_url env ++ py "/api/sessions/" ++ session_name env
                ++ py "/auth/qr") JNull =
    Returns (JObject [(py "status", JString (py "WORKING"))]) ∧
  result_of (get_qr_code env tt) = Returns (JString []).
Proof.
  intros env. split; [reflexivity|].
  destruct (get_qr_code_default env tt [(py "status", JString (py "WORKING"))])
    as [Hobj _].
  destruct (Hobj eq_refl) as [_ Hnone]. apply Hnone. reflexivity.
Defined.

(** X22.  The management endpoints (start session, session status, QR
    code, groups, join group) never raise anything but their 500 error.
    Without a client they answer 500 "WAHA client not initialized" and
    make no request; with a client and a transport that fails with [e]
    they answer 500 with the text of [e] after one request. *)
Theorem management_endpoints env s group_invite :
  ∀ r, r ∈ [ start_waha_session env s; get_waha_session_status env s;
             get_waha_qr_code env s; get_waha_groups env s;
             join_waha_group env group_invite s ] →
  (∃ resp, result_of r = Returns resp) ∧
  (waha_client env = false →
   r = (Returns (HTTPError 500 not_initialized), s, [])) ∧
  (waha_client env = true →
   ∀ e, (∀ v u b, http env v u b = Raises e) →
        result_of r = Returns (HTTPError 500 (str_exn e)) ∧
        length (requests (trace_of r)) = 1%nat).
Proof.
  intros r Hr.
  assert (Hshape :
    ∃ (method : Api json),
      r = endpoint env method s ∧
      ∀ e, (∀ v u b, http env v u b = Raises e) →
           ∃ v u b, method s = (Raises e, s, [Request v u b; LogError e])).
  { repeat (apply elem_of_cons in Hr as [-> | Hr]);
      [ exists (start_session env) | exists (get_session_status env)
      | exists (get_qr_code env) | exists (get_groups env)
      | exists (join_group env group_invite) | inversion Hr ];
      (split; [reflexivity|]); intros e He.
    - unfold start_session. rewrite call_run, He. eauto.
    - unfold get_session_status. rewrite call_run, He. eauto.
    - rewrite get_qr_code_run, He. eauto.
    - unfold get_groups. rewrite call_run, He. eauto.
    - unfold join_group. rewrite call_run, He. eauto. }
  destruct Hshape as (method & -> & Hfail).
  rewrite endpoint_run. split; [|split].
  - destruct (negb (waha_client env)); [eauto|].
    destruct (method s) as [[[a|e] s'] t]; eauto.
  - intros ->. reflexivity.
  - intros -> e He. simpl.
    destruct (Hfail e He) as (v & u & b & ->). split; reflexivity.
Qed.

Lemma management_endpoints_witness :
  let env := answering (Raises (Failure (py "connection refused"))) in
  waha_client env = true ∧
  result_of (get_waha_groups env tt) =
    Returns (HTTPError 500 (py "connection refused")).
Proof.
  intros env. split; [reflexivity|].
  destruct (management_endpoints env tt [] (get_waha_groups env tt))
    as (_ & _ & Hfail).
  - right. right. right. left.
  - exact (proj1 (Hfail eq_refl (Failure (py "connection refused"))
                    (λ _ _ _, eq_refl))).
Defined.

(** X23.  The endpoint that sends a message never raises anything but
    its 500 error: without a client it answers 500 and posts nothing;
    with a client it posts once, to the given chat, quoting [reply_to]
    when it is given and not empty, and answers 500 with the text of the
    exception when the post fails. *)
Theorem send_waha_message_answers (env : Webhook.environment) chat_id message
    reply_to s :
  let r := Management.send_waha_message env chat_id message reply_to s in
  (Webhook.waha_client env = false →
   r = (Returns (HTTPError 500 not_initialized), s, [])) ∧
  (Webhook.waha_client env = true →
   HookSpec.sends (trace_of r) =
     [(Some chat_id, message, HookSpec.quoted reply_to)] ∧
   state_of r = s ∧
   (Webhook.post_send_text env (Some chat_id) message (HookSpec.quoted reply_to)
      = Returns tt →
    result_of r = Returns (Success tt)) ∧
   (∀ e, Webhook.post_send_text env (Some chat_id) message
           (HookSpec.quoted reply_to) = Raises e →
         result_of r = Returns (HTTPError 500 (str_exn e)))).
Proof.
  intros r. subst r. unfold Management.send_waha_message. split.
  - intros ->. reflexivity.
  - intros ->. cbn [negb].
    unfold try_except, bind, emit, ret.
    rewrite HookProofs.send_text_message_run. fold (HookSpec.quoted reply_to).
    destruct (Webhook.post_send_text env (Some chat_id) message
                (HookSpec.quoted reply_to)) as [[]|e]; simpl.
    + repeat split; [intros e H; discriminate H].
    + repeat split; [intros H; discriminate H | intros e0 [= <-]; reflexivity].
Qed.

Lemma send_waha_message_answers_witness :
  let env := HookSpec.chat_env (HookSpec.says (py "ok")) in
  let r := Management.send_waha_message env (py "2@c.us") (py "hello") None ∅ in
  Webhook.waha_client env = true ∧
  HookSpec.sends (trace_of r) = [(Some (py "2@c.us"), py "hello", None)] ∧
  result_of r = Returns (Success tt).
Proof.
  intros env r. split; [reflexivity|].
  destruct (send_waha_message_answers env (py "2@c.us") (py "hello") None ∅)
    as [_ Hyes].
  destruct (Hyes eq_refl) as (Hs & _ & Hok & _).
  split; [exact Hs | exact (Hok eq_refl)].
Defined.

End ClientProofs.
